(** * PhotoPicks: catalog, filter pipeline, selection and the backend handlers

    A shallow embedding of the PhotoPicks sources:
    - the React [App] component (frontend): the filter effect, the selection
      clamp, [updateMetadata] with its optimistic [updateList], the
      auto-advance timer, [fetchPhotos] and the keyboard handler;
    - the Express server (backend): [getSafePath], [GET /api/photos],
      [POST /api/metadata] and [POST /api/copy-files];
    - further on: the thumbnail panel's resize handlers, the [FolderTree]
      component, [GET /api/folders], [GET /api/metadata], the first [App]
      component with its metadata cache, and [copyFilteredPhotos].

    JavaScript numbers that the program only uses as integers are [Z];
    [undefined] and [null] are the [None] of an [option]; arrays are lists;
    the object [tagsToWrite] is a [gmap] keyed by tag name.  The external
    collaborators (the exiftool binary, the file system, [JSON.parse],
    [localeCompare]) are the fields of an environment record. *)

From Stdlib Require Import ZArith Lia Ascii.
From stdpp Require Import base tactics option list strings gmap sorting.

Open Scope Z_scope.

(** ** JavaScript helpers *)

Module JS.

(** [v || d] for a value that is [undefined] or a number: [undefined] and
    [0] are falsy. *)
Definition num_or (v : option Z) (d : Z) : Z :=
  match v with
  | Some n => if decide (n = 0) then d else n
  | None => d
  end.

(** Truthiness of a value that is [undefined]/[null] or a string: the empty
    string is falsy. *)
Definition truthy (v : option string) : bool :=
  match v with
  | Some s => negb (String.eqb s "")
  | None => false
  end.

(** [arr[i]] for a number [i]: [undefined] outside [0 .. length-1]. *)
Definition index {A} (arr : list A) (i : Z) : option A :=
  if decide (0 ≤ i) then arr !! Z.to_nat i else None.

(** [arr.length] as a number. *)
Definition len {A} (arr : list A) : Z := Z.of_nat (length arr).

End JS.

(** ** The data model *)

(** One entry of the [photos] array that [GET /api/photos] returns and the
    frontend keeps in [allPhotos].  [rating] is [None] when the field is
    absent ([undefined]); [label] is [None] for [null]. *)
Module Photo.

Record t := mk {
  name : string;
  path : string;
  size : string;
  rating : option Z;
  label : option string
}.

#[global] Instance eq_dec : EqDecision t.
Proof. solve_decision. Defined.

End Photo.

Abbreviation PhotoRecord := Photo.t.

(** The rating a record counts for in the filter: [p.rating || 0]. *)
Definition ratingOf (p : PhotoRecord) : Z := JS.num_or (Photo.rating p) 0.

(** ** What travels over HTTP *)

Module Http.

(** The body of [POST /api/metadata]: a field is [None] when it is absent
    from the JSON ([undefined]); [label] can also be [null]. *)
Record MetadataBody := mkMetadataBody {
  file : option string;
  rating : option Z;
  label : option (option string)
}.

(** The body of [POST /api/copy-files]; [files] is [None] when it is absent
    or not an array. *)
Record CopyBody := mkCopyBody {
  files : option (list string);
  destination : option string
}.

(** The responses the handlers send. *)
Inductive Response :=
  | PhotosJson (path : string) (photos : list PhotoRecord)
  | SuccessJson
  | CopiedJson (count : Z)
  | ErrorJson (status : Z) (error : string)
  | ErrorText (status : Z) (text : string).

(** [fetch] either rejects (the request did not reach the server) or
    resolves with the server's response, whatever its status. *)
Inductive FetchResult :=
  | Rejected
  | Resolved (r : Response).

(** [data.photos || []] of a parsed response body. *)
Definition photos_or_empty (r : Response) : list PhotoRecord :=
  match r with
  | PhotosJson _ photos => photos
  | _ => []
  end.

(** [data.count] of a parsed response body. *)
Definition count_of (r : Response) : option Z :=
  match r with
  | CopiedJson count => Some count
  | _ => None
  end.

(** Whether [res.json()] resolves: a plain-text body does not parse. *)
Definition is_json (r : Response) : bool :=
  match r with
  | ErrorText _ _ => false
  | _ => true
  end.

Definition is_error (r : Response) : bool :=
  match r with
  | ErrorJson _ _ | ErrorText _ _ => true
  | _ => false
  end.

End Http.

(** [console.log] and [console.error] lines, by their fixed first argument. *)
Inductive LogLine :=
  | LogInfo (msg : string)
  | LogError (msg : string).

Definition is_Error (l : LogLine) : bool :=
  match l with LogError _ => true | LogInfo _ => false end.

(** ** The frontend: the [App] component *)

Module App.

Record State := mkState {
  allPhotos : list PhotoRecord;
  photos : list PhotoRecord;
  selectedIndex : Z;
  columnsCount : Z;
  filterRating : Z;
  filterColor : string
}.

Definition initial : State :=
  {| allPhotos := []; photos := []; selectedIndex := 0; columnsCount := 3;
     filterRating := 0; filterColor := "All" |}.

Definition setAllPhotos (v : list PhotoRecord) (st : State) : State :=
  {| allPhotos := v; photos := photos st; selectedIndex := selectedIndex st;
     columnsCount := columnsCount st; filterRating := filterRating st;
     filterColor := filterColor st |}.

Definition setPhotos (v : list PhotoRecord) (st : State) : State :=
  {| allPhotos := allPhotos st; photos := v; selectedIndex := selectedIndex st;
     columnsCount := columnsCount st; filterRating := filterRating st;
     filterColor := filterColor st |}.

(** [setSelectedIndex(prev => f prev)] *)
Definition setSelectedIndex (f : Z → Z) (st : State) : State :=
  {| allPhotos := allPhotos st; photos := photos st;
     selectedIndex := f (selectedIndex st);
     columnsCount := columnsCount st; filterRating := filterRating st;
     filterColor := filterColor st |}.

(** *** The filter effect (useEffect on allPhotos, filterRating, filterColor) *)

Definition applyFilters (allPhotos : list PhotoRecord)
    (filterRating : Z) (filterColor : string) : list PhotoRecord :=
  let result := allPhotos in
  let result :=
    if decide (filterRating > 0)
    then filter (λ p, ratingOf p >= filterRating) result
    else result in
  let result :=
    if decide (filterColor ≠ "All")
    then filter (λ p, Photo.label p = Some filterColor) result
    else result in
  result.

(** [Math.min(prev, Math.max(0, result.length - 1))] *)
Definition clamp (prev : Z) (n : Z) : Z := Z.min prev (Z.max 0 (n - 1)).

Definition filterEffect (st : State) : State :=
  let result := applyFilters (allPhotos st) (filterRating st) (filterColor st) in
  setSelectedIndex (λ prev, clamp prev (JS.len result)) (setPhotos result st).

(** [photos[selectedIndex]] *)
Definition currentPhoto (st : State) : option PhotoRecord :=
  JS.index (photos st) (selectedIndex st).

(** *** fetchPhotos *)

Definition fetchPhotos (res : Http.FetchResult) (st : State)
    : State * list LogLine :=
  match res with
  | Http.Resolved data =>
      if Http.is_json data
      then (setAllPhotos (Http.photos_or_empty data) st, [])
      else (setAllPhotos [] st, [LogError "Failed to load photos"])
  | Http.Rejected => (setAllPhotos [] st, [LogError "Failed to load photos"])
  end.

(** *** updateMetadata *)

(** The object spread of [updateList]: [rating] and [label] are [None] when
    the argument is [undefined]; a [label] argument can be [null]. *)
Definition spread (rating : option Z) (label : option (option string))
    (p : PhotoRecord) : PhotoRecord :=
  {| Photo.name := Photo.name p;
     Photo.path := Photo.path p;
     Photo.size := Photo.size p;
     Photo.rating := match rating with Some r => Some r | None => Photo.rating p end;
     Photo.label := match label with Some l => l | None => Photo.label p end |}.

Definition updateList (currentPath : string) (rating : option Z)
    (label : option (option string)) (list : list PhotoRecord)
    : Datatypes.list PhotoRecord :=
  (λ p, if decide (Photo.path p = currentPath) then spread rating label p else p)
    <$> list.

(** The timer callback; [n] is the [photos.length] its closure captured. *)
Definition autoAdvance (n : Z) (st : State) : State :=
  setSelectedIndex (λ prev, Z.min (prev + 1) (n - 1)) st.

(** The request [updateMetadata] posts. *)
Definition metadataRequest (currentPhoto : PhotoRecord) (rating : option Z)
    (label : option (option string)) : Http.MetadataBody :=
  {| Http.file := Some (Photo.path currentPhoto);
     Http.rating := rating; Http.label := label |}.

(** [updateMetadata(rating, label)], with the state changes in the order
    they take place: the optimistic [setAllPhotos], the re-render that runs
    the filter effect, the timer (100 ms later, with the [photos] of the
    render that created it), and the [fetch], whose result only decides
    whether a line is logged.  [post] is the server as [fetch] sees it. *)
Definition updateMetadata (post : Http.MetadataBody → Http.FetchResult)
    (rating : option Z) (label : option (option string)) (st : State)
    : State * list LogLine :=
  match currentPhoto st with
  | None => (st, [])
  | Some currentPhoto =>
      let st1 := setAllPhotos
        (updateList (Photo.path currentPhoto) rating label (allPhotos st)) st in
      let st2 := filterEffect st1 in
      let st3 := autoAdvance (JS.len (photos st)) st2 in
      match post (metadataRequest currentPhoto rating label) with
      | Http.Resolved _ => (st3, [])
      | Http.Rejected => (st3, [LogError "Failed to save metadata"])
      end
  end.

(** *** The keyboard handler *)

Inductive Command :=
  | Move (f : Z → Z)
  | Update (rating : option Z) (label : option (option string))
  | Nothing.

(** The [switch (e.key)] of [handleKeyDown]; [n] is [photos.length]. *)
Definition keyCommand (columnsCount n : Z) (key : string) : Command :=
  if String.eqb key "ArrowRight" then Move (λ prev, Z.min (prev + 1) (n - 1))
  else if String.eqb key "ArrowLeft" then Move (λ prev, Z.max (prev - 1) 0)
  else if String.eqb key "ArrowDown" then Move (λ prev, Z.min (prev + columnsCount) (n - 1))
  else if String.eqb key "ArrowUp" then Move (λ prev, Z.max (prev - columnsCount) 0)
  else if String.eqb key "1" then Update (Some 1) None
  else if String.eqb key "2" then Update (Some 2) None
  else if String.eqb key "3" then Update (Some 3) None
  else if String.eqb key "4" then Update (Some 4) None
  else if String.eqb key "5" then Update (Some 5) None
  else if String.eqb key "0" then Update (Some 0) (Some None)
  else if String.eqb key "6" then Update None (Some (Some "Red"))
  else if String.eqb key "7" then Update None (Some (Some "Yellow"))
  else if String.eqb key "8" then Update None (Some (Some "Green"))
  else if String.eqb key "9" then Update None (Some (Some "Blue"))
  else Nothing.

(** [handleKeyDown(e)]; [tagName] is [e.target.tagName]. *)
Definition handleKeyDown (post : Http.MetadataBody → Http.FetchResult)
    (tagName key : string) (st : State) : State * list LogLine :=
  if String.eqb tagName "INPUT" then (st, [])
  else if decide (JS.len (photos st) = 0) then (st, [])
  else match keyCommand (columnsCount st) (JS.len (photos st)) key with
       | Move f => (setSelectedIndex f st, [])
       | Update rating label => updateMetadata post rating label st
       | Nothing => (st, [])
       end.

(** The rating a key press asks the server to store, if any. *)
Definition keyRating (key : string) : option Z :=
  match keyCommand 3 1 key with
  | Update rating _ => rating
  | _ => None
  end.

End App.

(** ** Node's [path] module (POSIX flavour) *)

Module Path.

Definition slash : ascii := "/"%char.

(** [s.split('/')] *)
Fixpoint split (s : string) : list string :=
  match s with
  | EmptyString => [EmptyString]
  | String a s' =>
      if Ascii.eqb a slash then EmptyString :: split s'
      else match split s' with
           | seg :: segs => String a seg :: segs
           | [] => [String a EmptyString]
           end
  end.

(** A segment of a path: no slash in it, and not empty, ["."] or [".."]. *)
Fixpoint slashFree (s : string) : bool :=
  match s with
  | EmptyString => true
  | String a s' => negb (Ascii.eqb a slash) && slashFree s'
  end.

Definition plain (seg : string) : Prop :=
  slashFree seg = true ∧ seg ≠ ""%string ∧ seg ≠ "."%string ∧ seg ≠ ".."%string.

Definition isAbsolute (s : string) : bool :=
  match s with
  | String a _ => Ascii.eqb a slash
  | EmptyString => false
  end.

(** [normalizeString]: drops empty and ["."] segments and resolves [".."];
    [stack] is the list of segments kept so far, last first. *)
Fixpoint normalizeSegments (allowAboveRoot : bool) (stack segs : list string)
    : list string :=
  match segs with
  | [] => reverse stack
  | seg :: rest =>
      if String.eqb seg "" || String.eqb seg "."
      then normalizeSegments allowAboveRoot stack rest
      else if String.eqb seg ".."
      then match stack with
           | top :: stack' =>
               if String.eqb top ".."
               then normalizeSegments allowAboveRoot (".." :: stack) rest
               else normalizeSegments allowAboveRoot stack' rest
           | [] =>
               if allowAboveRoot
               then normalizeSegments allowAboveRoot [".."] rest
               else normalizeSegments allowAboveRoot [] rest
           end
      else normalizeSegments allowAboveRoot (seg :: stack) rest
  end.

Definition joinSegments (segs : list string) : string := String.concat "/" segs.

(** The loop of [path.resolve]: from the last argument backwards (the
    current directory comes after the first argument) until an absolute
    path is met. *)
Fixpoint gather (pathsFromLast : list string) (resolvedPath : string)
    : string * bool :=
  match pathsFromLast with
  | [] => (resolvedPath, false)
  | p :: rest =>
      if String.eqb p "" then gather rest resolvedPath
      else
        let resolvedPath := (p ++ "/" ++ resolvedPath)%string in
        if isAbsolute p then (resolvedPath, true) else gather rest resolvedPath
  end.

(** [path.resolve(...args)] in a process whose current directory is [cwd]. *)
Definition resolve (cwd : string) (args : list string) : string :=
  let '(resolvedPath, resolvedAbsolute) := gather (reverse (cwd :: args)) "" in
  let normalized :=
    joinSegments (normalizeSegments (negb resolvedAbsolute) [] (split resolvedPath)) in
  if resolvedAbsolute then ("/" ++ normalized)%string
  else if String.eqb normalized "" then "." else normalized.

(** [path.join(a, b)] *)
Definition join (a b : string) : string :=
  let joined :=
    if String.eqb a "" then b
    else if String.eqb b "" then a
    else (a ++ "/" ++ b)%string in
  if String.eqb joined "" then "."
  else
    let absolute := isAbsolute joined in
    let trailing := bool_decide (last (split joined) = Some ""%string) in
    let normalized :=
      joinSegments (normalizeSegments (negb absolute) [] (split joined)) in
    if String.eqb normalized ""
    then (if absolute then "/" else if trailing then "./" else ".")
    else
      let normalized := if trailing then (normalized ++ "/")%string else normalized in
      if absolute then ("/" ++ normalized)%string else normalized.

(** [path.basename(p)]: the last segment that is not empty. *)
Definition basename (p : string) : string :=
  default "" (last (filter (λ seg, seg ≠ "") (split p))).

End Path.

(** ** The backend: the Express handlers *)

Module Server.

(** A call into an external collaborator returns or throws. *)
Inductive Outcome (A : Type) :=
  | Ok (a : A)
  | Throw (message : string).
Arguments Ok {A} a.
Arguments Throw {A} message.

(** What [execFile]'s callback receives. *)
Inductive ExecResult :=
  | ExecError (stderr : string)
  | ExecOk (stdout : string).

(** One object of exiftool's JSON output; [Rating] and [Label] are [None]
    when the file has no such tag. *)
Record RawItem := mkRawItem {
  FileName : string;
  SourceFile : string;
  FileSize : string;
  Rating : option Z;
  Label : option string
}.

(** [currentMeta.Keywords]: a string for a single keyword, else an array. *)
Inductive Keywords :=
  | KwString (s : string)
  | KwArray (l : list string).

(** What [exiftool.read] returns, as far as the handlers look at it. *)
Record Tags := mkTags {
  tagRating : option Z;
  tagLabel : option string;
  tagKeywords : option Keywords
}.

(** A value of the [tagsToWrite] object. *)
Inductive TagVal :=
  | TNum (n : Z)
  | TStr (s : string)
  | TNull
  | TArr (l : list string).

#[global] Instance TagVal_eq_dec : EqDecision TagVal.
Proof. solve_decision. Defined.

(** The process and its collaborators. *)
Record Env := mkEnv {
  dirname : string;
  cwd : string;
  localeCompare : string → string → Z;
  exiftoolPath : Outcome string;
  execFile : string → list string → ExecResult;
  JSON_parse : string → Outcome (list RawItem);
  exiftool_read : string → Outcome Tags;
  exiftool_write : string → gmap string TagVal → list string → Outcome unit;
  existsSync : string → bool;
  mkdir : string → Outcome unit;
  copyFile : string → string → Outcome unit
}.

Section handlers.
Context (env : Env).

(** [path.resolve(__dirname, '../..')] *)
Definition DEFAULT_ROOT : string :=
  Path.resolve (cwd env) [dirname env; "../.."%string].

Definition getSafePath (reqPath : option string) : string :=
  if negb (JS.truthy reqPath) then DEFAULT_ROOT
  else Path.resolve (cwd env) [default ""%string reqPath].

(** *** GET /api/photos *)

Definition scanArgs (recursive : bool) (folderPath : string) : list string :=
  let args :=
    ["-json"; "-fast";
     "-ext"; "jpg"; "-ext"; "jpeg"; "-ext"; "png";
     "-ext"; "JPG"; "-ext"; "JPEG"; "-ext"; "PNG";
     "-Rating"; "-Label";
     "-file:FileName"; "-file:FileSize"; "-file:FileModifyDate"]%string in
  let args := if recursive then args ++ ["-r"%string] else args in
  args ++ [folderPath].

(** The object the handler builds from one item of the tool's output. *)
Definition toPhoto (item : RawItem) : PhotoRecord :=
  {| Photo.name := FileName item;
     Photo.path := SourceFile item;
     Photo.size := FileSize item;
     Photo.rating := Some (JS.num_or (Rating item) 0);
     Photo.label := if JS.truthy (Label item) then Label item else None |}.

(** The order [photos.sort((a, b) => a.name.localeCompare(b.name))] sorts
    by: [a] may stand before [b]. *)
Definition name_le (a b : PhotoRecord) : Prop :=
  localeCompare env (Photo.name a) (Photo.name b) ≤ 0.

#[global] Instance name_le_dec a b : Decision (name_le a b).
Proof. unfold name_le. apply _. Defined.

(** [Array.prototype.sort] is stable: records the comparison does not
    tell apart keep the order they had.  [insertByName] puts a record
    before the first one it may stand before, so a record goes in front of
    the records of [sorted] that compare equal to it, and [sortByName]
    inserts the records from the last one to the first. *)
Fixpoint insertByName (photo : PhotoRecord) (sorted : list PhotoRecord)
    : list PhotoRecord :=
  match sorted with
  | [] => [photo]
  | other :: rest =>
      if decide (name_le photo other) then photo :: sorted
      else other :: insertByName photo rest
  end.

Definition sortByName (photos : list PhotoRecord) : list PhotoRecord :=
  foldr insertByName [] photos.

(** [query_path] and [query_recursive] are [req.query.path] and
    [req.query.recursive]. *)
Definition getPhotos (query_path query_recursive : option string)
    : Http.Response * list LogLine :=
  let folderPath := getSafePath query_path in
  let recursive := bool_decide (query_recursive = Some "true"%string) in
  let args := scanArgs recursive folderPath in
  match exiftoolPath env with
  | Throw _ =>
      (Http.ErrorJson 500 "Exiftool binary not found",
       [LogInfo "Scanning:"; LogError "Could not find exiftool binary path:";
        LogError "Error scanning folder:"])
  | Ok exiftoolPath =>
      match execFile env exiftoolPath args with
      | ExecError _ =>
          (Http.PhotosJson folderPath [],
           [LogInfo "Scanning:"; LogError "Exiftool error:"])
      | ExecOk stdout =>
          match JSON_parse env stdout with
          | Throw _ =>
              (Http.PhotosJson folderPath [],
               [LogInfo "Scanning:"; LogError "JSON Parse error:"])
          | Ok rawData =>
              let photos := toPhoto <$> rawData in
              let photos := sortByName photos in
              (Http.PhotosJson folderPath photos, [LogInfo "Scanning:"])
          end
      end
  end.

(** *** POST /api/metadata *)

Definition ratingMap : gmap Z Z :=
  list_to_map [(0, 0); (1, 1); (2, 25); (3, 50); (4, 75); (5, 99)].

Definition colorLabels : list string :=
  ["Red"; "Yellow"; "Green"; "Blue"; "Purple"; "Orange"; "Gray"]%string.

(** The tags written for a [rating] that is not [undefined]. *)
Definition ratingTags (rating : Z) (tagsToWrite : gmap string TagVal)
    : gmap string TagVal :=
  let tagsToWrite := <["Rating"%string := TNum rating]> tagsToWrite in
  let tagsToWrite := <["XMP:Rating"%string := TNum rating]> tagsToWrite in
  <["RatingPercent"%string := TNum (JS.num_or (ratingMap !! rating) 0)]> tagsToWrite.

Definition labelVal (label : option string) : TagVal :=
  match label with
  | Some s => TStr s
  | None => TNull
  end.

(** The keywords written along with a label: the file's keywords without
    the known colour labels, then the new label if it is truthy. *)
Definition newKeywords (currentMeta : Tags) (label : option string)
    : list string :=
  let keywords :=
    match tagKeywords currentMeta with
    | None => []
    | Some (KwString s) => if String.eqb s "" then [] else [s]
    | Some (KwArray l) => l
    end in
  let keywords := filter (λ k, k ∉ colorLabels) keywords in
  if JS.truthy label then keywords ++ [default ""%string label] else keywords.

(** The tags written for a [label] that is not [undefined]. *)
Definition labelTags (currentMeta : Tags) (label : option string)
    (tagsToWrite : gmap string TagVal) : gmap string TagVal :=
  let tagsToWrite := <["Label"%string := labelVal label]> tagsToWrite in
  let tagsToWrite := <["XMP:Label"%string := labelVal label]> tagsToWrite in
  let keywords := newKeywords currentMeta label in
  let tagsToWrite := <["Keywords"%string := TArr keywords]> tagsToWrite in
  let tagsToWrite := <["Subject"%string := TArr keywords]> tagsToWrite in
  <["XPKeywords"%string := TStr (String.concat ";" keywords)]> tagsToWrite.

(** What a run of the handler did: its response, its log lines, and the
    call of [exiftool.write] it issued, if it got that far. *)
Record MetadataRun := mkMetadataRun {
  response : Http.Response;
  logged : list LogLine;
  written : option (string * gmap string TagVal)
}.

Definition postMetadata (body : Http.MetadataBody) : MetadataRun :=
  if negb (JS.truthy (Http.file body))
  then mkMetadataRun (Http.ErrorText 400 "Missing file path") [] None
  else
    let file := default ""%string (Http.file body) in
    let tagsToWrite : gmap string TagVal := ∅ in
    let tagsToWrite :=
      match Http.rating body with
      | Some rating => ratingTags rating tagsToWrite
      | None => tagsToWrite
      end in
    let labelled : Outcome (gmap string TagVal) :=
      match Http.label body with
      | Some label =>
          match exiftool_read env file with
          | Ok currentMeta => Ok (labelTags currentMeta label tagsToWrite)
          | Throw message => Throw message
          end
      | None => Ok tagsToWrite
      end in
    match labelled with
    | Throw message =>
        mkMetadataRun (Http.ErrorJson 500 message)
          [LogError "Error writing metadata:"] None
    | Ok tagsToWrite =>
        match exiftool_write env file tagsToWrite ["-overwrite_original"%string] with
        | Ok _ => mkMetadataRun Http.SuccessJson [] (Some (file, tagsToWrite))
        | Throw message =>
            mkMetadataRun (Http.ErrorJson 500 message)
              [LogError "Error writing metadata:"] None
        end
    end.

(** The value of the [Rating] tag a run handed to [exiftool.write]. *)
Definition storedRating (run : MetadataRun) : option TagVal :=
  '(_, tags) ← written run; tags !! "Rating"%string.

(** *** POST /api/copy-files *)

(** The [for] loop: the copies made, in order, and the count reached, or
    the message of the [copyFile] that threw. *)
Fixpoint copyLoop (destination : string) (files : list string) (count : Z)
    : list (string * string) * Outcome Z :=
  match files with
  | [] => ([], Ok count)
  | file :: rest =>
      let fileName := Path.basename file in
      let destPath := Path.join destination fileName in
      match copyFile env file destPath with
      | Throw message => ([], Throw message)
      | Ok _ =>
          let '(copied, result) := copyLoop destination rest (count + 1) in
          ((file, destPath) :: copied, result)
      end
  end.

Record CopyRun := mkCopyRun {
  copyResponse : Http.Response;
  copyLogged : list LogLine;
  copied : list (string * string)
}.

Definition postCopyFiles (body : Http.CopyBody) : CopyRun :=
  match Http.files body with
  | None => mkCopyRun (Http.ErrorJson 400 "Invalid request") [] []
  | Some files =>
      if negb (JS.truthy (Http.destination body))
      then mkCopyRun (Http.ErrorJson 400 "Invalid request") [] []
      else
        let destination := default ""%string (Http.destination body) in
        let made :=
          if existsSync env destination then Ok tt else mkdir env destination in
        match made with
        | Throw message =>
            mkCopyRun (Http.ErrorJson 500 message) [LogError "Error copying files:"] []
        | Ok _ =>
            match copyLoop destination files 0 with
            | (copied, Ok count) => mkCopyRun (Http.CopiedJson count) [] copied
            | (copied, Throw message) =>
                mkCopyRun (Http.ErrorJson 500 message)
                  [LogError "Error copying files:"] copied
            end
        end
  end.

End handlers.

End Server.

(** ** The scan as the frontend sees it *)

(** [fetchPhotos(path, recursive)] against the server: [reached] says
    whether the request got to it.  The log holds the server's lines, then
    the frontend's. *)
Definition scan (env : Server.Env) (reached : bool) (path : string)
    (recursive : bool) (st : App.State) : App.State * list LogLine :=
  if reached then
    let '(res, serverLog) :=
      Server.getPhotos env (Some path)
        (Some (if recursive then "true" else "false")%string) in
    let '(st', log) := App.fetchPhotos (Http.Resolved res) st in
    (st', serverLog ++ log)
  else App.fetchPhotos Http.Rejected st.

(** What the metadata tool delivers for a folder: [None] when the binary is
    missing, the tool exits with an error, or its output does not parse. *)
Definition toolOutput (env : Server.Env) (recursive : bool)
    (folderPath : string) : option (list Server.RawItem) :=
  match Server.exiftoolPath env with
  | Server.Throw _ => None
  | Server.Ok exiftoolPath =>
      match Server.execFile env exiftoolPath (Server.scanArgs recursive folderPath) with
      | Server.ExecError _ => None
      | Server.ExecOk stdout =>
          match Server.JSON_parse env stdout with
          | Server.Throw _ => None
          | Server.Ok rawData => Some rawData
          end
      end
  end.

(** The server as [updateMetadata]'s [fetch] sees it. *)
Definition postTo (env : Server.Env) (reached : bool)
    (body : Http.MetadataBody) : Http.FetchResult :=
  if reached then Http.Resolved (Server.response (Server.postMetadata env body))
  else Http.Rejected.

(** Where the copy handler puts [file]: the pair it hands to [copyFile]. *)
Definition copyTarget (destination file : string) : string * string :=
  (file, Path.join destination (Path.basename file)).

(** The copy of [file] into [destination] succeeds. *)
Definition copySucceeds (env : Server.Env) (destination file : string) : Prop :=
  ∃ u, Server.copyFile env file (copyTarget destination file).2 = Server.Ok u.

(** ** The filter criteria as the specification words them *)

Record FilterCriteria := mkCriteria {
  minRating : Z;
  critLabel : string
}.

(** The specification's predicate: rating at least [minRating], and the
    label equal to the criteria's unless that is the wildcard ["All"]. *)
Definition satisfies (F : FilterCriteria) (p : PhotoRecord) : Prop :=
  ratingOf p >= minRating F
  ∧ (critLabel F = "All"%string ∨ Photo.label p = Some (critLabel F)).

#[global] Instance satisfies_dec F p : Decision (satisfies F p).
Proof. unfold satisfies. apply _. Defined.

Definition apply (C : list PhotoRecord) (F : FilterCriteria) : list PhotoRecord :=
  App.applyFilters C (minRating F) (critLabel F).

(** The test the filter effect makes: the rating is looked at only for a
    [minRating] above 0, the label only for a criterion other than ["All"]. *)
Definition passes (F : FilterCriteria) (p : PhotoRecord) : Prop :=
  (minRating F > 0 → ratingOf p >= minRating F)
  ∧ (critLabel F ≠ "All"%string → Photo.label p = Some (critLabel F)).

#[global] Instance passes_dec F p : Decision (passes F p).
Proof. unfold passes. apply _. Defined.

(** The record the specification's scan holds for a file the tool lists:
    name, path and size as the tool gives them, rating 0 when the file has
    no rating, and no label when the tag is missing or empty. *)
Definition recordOf (item : Server.RawItem) : PhotoRecord :=
  {| Photo.name := Server.FileName item;
     Photo.path := Server.SourceFile item;
     Photo.size := Server.FileSize item;
     Photo.rating := Some (default 0 (Server.Rating item));
     Photo.label :=
       match Server.Label item with
       | Some l => if String.eqb l "" then None else Some l
       | None => None
       end |}.

(** The records of [l] named [n], in the order [l] has them. *)
Definition named (n : string) (l : list PhotoRecord) : list PhotoRecord :=
  filter (λ p, Photo.name p = n) l.

(** Every record of the catalog has a rating that is not negative. *)
Definition ratings_nonneg (C : list PhotoRecord) : Prop :=
  Forall (λ p, 0 ≤ ratingOf p) C.

(** Every record of the catalog has a rating from 0 to 5. *)
Definition ratings_in_range (C : list PhotoRecord) : Prop :=
  Forall (λ p, 0 ≤ ratingOf p ≤ 5) C.

(** The state the component is in once the filter effect has run. *)
Definition settled (st : App.State) : Prop :=
  App.photos st =
    App.applyFilters (App.allPhotos st) (App.filterRating st) (App.filterColor st).

(** No two records of the catalog have the same path. *)
Definition paths_unique (C : list PhotoRecord) : Prop :=
  NoDup (Photo.path <$> C).

(** ** Sample data *)

Module Sample.

Definition photo (n : string) (r : Z) (l : option string) : PhotoRecord :=
  {| Photo.name := n; Photo.path := ("/pics/" ++ n)%string; Photo.size := "1 kB";
     Photo.rating := Some r; Photo.label := l |}.

Definition A := photo "A.jpg" 0 None.
Definition B := photo "B.jpg" 5 (Some "Red"%string).
Definition C := photo "C.jpg" 3 None.
Definition D := photo "D.jpg" 4 None.
Definition E := photo "E.jpg" 2 (Some "Blue"%string).

Definition catalog : list PhotoRecord := [A; B; C].
Definition five : list PhotoRecord := [A; B; C; D; E].

Definition stateAt (i : Z) : App.State :=
  {| App.allPhotos := five; App.photos := five; App.selectedIndex := i;
     App.columnsCount := 3; App.filterRating := 0; App.filterColor := "All" |}.

(** Five photos, all shown under the filter "3+ stars", the fourth selected. *)
Definition shown : list PhotoRecord :=
  [photo "p1.jpg" 3 None; photo "p2.jpg" 4 None; photo "p3.jpg" 5 None;
   photo "p4.jpg" 3 None; photo "p5.jpg" 4 None].

Definition filteredState : App.State :=
  {| App.allPhotos := shown; App.photos := shown; App.selectedIndex := 3;
     App.columnsCount := 3; App.filterRating := 3; App.filterColor := "All" |}.

(** A catalog whose only photo cannot be written, under the filter
    "1+ stars or more", before the photo is rated. *)
Definition locked := photo "locked.jpg" 1 None.

Definition lockedState : App.State :=
  {| App.allPhotos := [locked]; App.photos := [locked]; App.selectedIndex := 0;
     App.columnsCount := 3; App.filterRating := 1; App.filterColor := "All" |}.

(** [localeCompare] by code units. *)
Definition codeUnitCompare (a b : string) : Z :=
  match String.compare a b with
  | Lt => -1
  | Eq => 0
  | Gt => 1
  end.

Definition rawItems : list Server.RawItem :=
  [ Server.mkRawItem "b.png" "/pics/b.png" "2 kB" (Some 3) (Some "Red"%string);
    Server.mkRawItem "a.JPG" "/pics/a.JPG" "1 kB" None None ].

(** A machine on which everything works, except that [c.jpg] is missing
    and [locked.jpg] cannot be written. *)
Definition env : Server.Env :=
  {| Server.dirname := "/home/u/PhotoPicks/backend";
     Server.cwd := "/home/u/PhotoPicks/backend";
     Server.localeCompare := codeUnitCompare;
     Server.exiftoolPath := Server.Ok "exiftool.exe"%string;
     Server.execFile := λ _ args,
       if decide (last args = Some "/pics"%string)
       then Server.ExecOk "[...]"
       else if decide (last args = Some "/home/u"%string)
       then Server.ExecOk "[...]"
       else Server.ExecError "File not found";
     Server.JSON_parse := λ _, Server.Ok rawItems;
     Server.exiftool_read := λ _, Server.Ok (Server.mkTags None None None);
     Server.exiftool_write := λ file _ _,
       if String.eqb file "/pics/locked.jpg"
       then Server.Throw "Error: file is read-only"
       else Server.Ok tt;
     Server.existsSync := λ _, true;
     Server.mkdir := λ _, Server.Ok tt;
     Server.copyFile := λ src _,
       if String.eqb src "/pics/c.jpg"
       then Server.Throw "ENOENT: no such file or directory"
       else Server.Ok tt |}.

Definition batch : Http.CopyBody :=
  {| Http.files :=
       Some ["/pics/a.jpg"; "/pics/b.jpg"; "/pics/c.jpg"; "/pics/d.jpg"; "/pics/e.jpg"]%string;
     Http.destination := Some "/out"%string |}.

End Sample.

(** ** The thumbnail panel of the [App] component: resizing *)

Module Panel.

Record State := mkState {
  thumbnailWidth : Z;
  isResizing : bool;
  columnsCount : Z
}.

Definition initial : State :=
  {| thumbnailWidth := 300; isResizing := false; columnsCount := 3 |}.

Definition handleMouseDown (st : State) : State :=
  {| thumbnailWidth := thumbnailWidth st; isResizing := true;
     columnsCount := columnsCount st |}.

Definition handleMouseUp (st : State) : State :=
  {| thumbnailWidth := thumbnailWidth st; isResizing := false;
     columnsCount := columnsCount st |}.

(** [handleMouseMove(e)]; [innerWidth] is [window.innerWidth] and [clientX]
    is [e.clientX]. *)
Definition handleMouseMove (innerWidth clientX : Z) (st : State) : State :=
  if negb (isResizing st) then st
  else
    let newWidth := innerWidth - clientX in
    let clampedWidth := Z.max 250 (Z.min 800 newWidth) in
    let cols := Z.max 2 ((clampedWidth - 16) / 140) in
    {| thumbnailWidth := clampedWidth; isResizing := isResizing st;
       columnsCount := cols |}.

(** The effect on [thumbnailWidth]. *)
Definition widthEffect (st : State) : State :=
  let cols := Z.max 2 ((thumbnailWidth st - 16) / 140) in
  {| thumbnailWidth := thumbnailWidth st; isResizing := isResizing st;
     columnsCount := cols |}.

End Panel.

(** ** The [FolderTree] component *)

Module Tree.

Definition backslash : ascii := "\"%char.

Definition isSeparator (a : ascii) : bool :=
  Ascii.eqb a backslash || Ascii.eqb a Path.slash.

(** [s.split(/[\\/]/)] *)
Fixpoint split (s : string) : list string :=
  match s with
  | EmptyString => [EmptyString]
  | String a s' =>
      if isSeparator a then EmptyString :: split s'
      else match split s' with
           | seg :: segs => String a seg :: segs
           | [] => [String a EmptyString]
           end
  end.

(** A segment as [split] and [filter] leave them: no separator in it, and
    not empty. *)
Fixpoint separatorFree (s : string) : bool :=
  match s with
  | EmptyString => true
  | String a s' => negb (isSeparator a) && separatorFree s'
  end.

Definition proper (seg : string) : Prop :=
  separatorFree seg = true ∧ seg ≠ ""%string.

(** [s.endsWith(c)] for a character [c]. *)
Fixpoint endsWith (s : string) (c : ascii) : bool :=
  match s with
  | EmptyString => false
  | String a EmptyString => Ascii.eqb a c
  | String _ s' => endsWith s' c
  end.

(** [s.startsWith(t)] *)
Fixpoint startsWith (s t : string) : bool :=
  match t, s with
  | EmptyString, _ => true
  | String b t', String a s' => Ascii.eqb a b && startsWith s' t'
  | String _ _, EmptyString => false
  end.

(** The segments of a path: [rootPath.split(/[\\/]/).filter(p => p)]. *)
Definition segments (rootPath : string) : list string :=
  filter (λ p, p ≠ ""%string) (split rootPath).

(** The path [goUp] sets as the new root; the root stays when it has a
    single segment. *)
Definition goUp (rootPath : string) : string :=
  let parts := segments rootPath in
  if decide (1 < length parts)%nat then
    let parts := take (length parts - 1) parts in
    let newPath := String.concat "\" parts in
    if endsWith newPath ":" then (newPath ++ "\")%string else newPath
  else rootPath.

(** [p.replace(/[\\/]$/, '')] *)
Fixpoint stripTrailingSeparator (p : string) : string :=
  match p with
  | EmptyString => EmptyString
  | String a EmptyString => if isSeparator a then EmptyString else p
  | String a p' => String a (stripTrailingSeparator p')
  end.

Section sync.
(** [String.prototype.toLowerCase] *)
Context (toLowerCase : string → string).

Definition normalize (p : string) : string :=
  stripTrailingSeparator (toLowerCase p).

(** The effect on [currentPath] and [rootPath]: the root it leaves. *)
Definition syncRoot (currentPath rootPath : string) : string :=
  if String.eqb currentPath "" then rootPath
  else
    let curr := normalize currentPath in
    let root := normalize rootPath in
    if negb (startsWith curr root) then currentPath else rootPath.

End sync.

End Tree.

(** ** The backend: GET /api/folders and GET /api/metadata *)

Module Listing.

(** An entry of [fs.promises.readdir(folderPath, { withFileTypes: true })]. *)
Record Dirent := mkDirent {
  name : string;
  isDirectory : bool
}.

Record Folder := mkFolder {
  folderName : string;
  folderPath : string
}.

Inductive FoldersResponse :=
  | FoldersJson (path : string) (folders : list Folder)
  | FoldersError (status : Z) (error : string).

(** The entries the handler keeps: directories that are not hidden. *)
Definition listed (item : Dirent) : Prop :=
  isDirectory item = true ∧ Tree.startsWith (name item) "." = false.

#[global] Instance listed_dec item : Decision (listed item).
Proof. unfold listed. apply _. Defined.

(** [readdir] is [fs.promises.readdir]. *)
Definition getFolders (env : Server.Env)
    (readdir : string → Server.Outcome (list Dirent))
    (query_path : option string) : FoldersResponse * list LogLine :=
  let folderPath := Server.getSafePath env query_path in
  match readdir folderPath with
  | Server.Ok items =>
      let folders :=
        (λ item, {| folderName := name item;
                    folderPath := Path.join folderPath (name item) |})
          <$> filter listed items in
      (FoldersJson folderPath folders, [])
  | Server.Throw message =>
      (FoldersError 500 message, [LogError "Error listing folders:"])
  end.

Inductive MetadataResponse :=
  | MetadataJson (rating : Z) (label : string)
  | MetadataError (status : Z) (error : string)
  | MetadataText (status : Z) (text : string).

(** [tags.Label || ''] *)
Definition label_or_empty (l : option string) : string :=
  if JS.truthy l then default ""%string l else ""%string.

Definition getMetadata (env : Server.Env) (query_file : option string)
    : MetadataResponse * list LogLine :=
  if negb (JS.truthy query_file)
  then (MetadataText 400 "Missing file path", [])
  else
    match Server.exiftool_read env (default ""%string query_file) with
    | Server.Ok tags =>
        (MetadataJson (JS.num_or (Server.tagRating tags) 0)
           (label_or_empty (Server.tagLabel tags)), [])
    | Server.Throw message =>
        (MetadataError 500 message, [LogError "Error reading metadata:"])
    end.

End Listing.

(** ** The first [App] component: metadata kept in a cache *)

Module Legacy.

(** An entry of [metadataCache]: a field is [None] when the object has no
    such property; a [label] can be [null]. *)
Record Meta := mkMeta {
  rating : option Z;
  label : option (option string)
}.

Record State := mkState {
  photos : list PhotoRecord;
  selectedIndex : Z;
  metadataCache : gmap string Meta
}.

(** What [await res.json()] gives for a response of GET /api/metadata: an
    object with the fields of the body, or [None] when the body is not
    JSON. *)
Definition parse (r : Listing.MetadataResponse) : option Meta :=
  match r with
  | Listing.MetadataJson rating label => Some (mkMeta (Some rating) (Some (Some label)))
  | Listing.MetadataError _ _ => Some (mkMeta None None)
  | Listing.MetadataText _ _ => None
  end.

(** [get] is the server as [fetch] sees it: [None] when the request does
    not reach it.  The function is asynchronous and works on two states:
    [rendered] is the state of the render whose closure runs, and its
    [metadataCache] is the one [if (metadataCache[file.path]) return] looks
    at; [now] is the state at the time the response has arrived, the [prev]
    of [setMetadataCache(prev => ({...prev, [file.path]: data}))].  Other
    updates may have run between the two. *)
Definition fetchMetadata (get : string → option Listing.MetadataResponse)
    (file : PhotoRecord) (rendered now : State) : State * list LogLine :=
  match metadataCache rendered !! Photo.path file with
  | Some _ => (now, [])
  | None =>
      match get (Photo.path file) ≫= parse with
      | Some data =>
          ({| photos := photos now; selectedIndex := selectedIndex now;
              metadataCache := <[Photo.path file := data]> (metadataCache now) |}, [])
      | None => (now, [LogError "Failed to fetch metadata"])
      end
  end.

(** [{...prev[path], ...(rating !== undefined && { rating }),
      ...(label !== undefined && { label })}] *)
Definition merge (prev : option Meta) (rating : option Z)
    (label : option (option string)) : Meta :=
  {| Legacy.rating :=
       match rating with
       | Some r => Some r
       | None => prev ≫= Legacy.rating
       end;
     Legacy.label :=
       match label with
       | Some l => Some l
       | None => prev ≫= Legacy.label
       end |}.

Definition updateMetadata (post : Http.MetadataBody → Http.FetchResult)
    (rating : option Z) (label : option (option string)) (st : State)
    : State * list LogLine :=
  match JS.index (photos st) (selectedIndex st) with
  | None => (st, [])
  | Some currentPhoto =>
      let st' :=
        {| photos := photos st; selectedIndex := selectedIndex st;
           metadataCache :=
             <[Photo.path currentPhoto :=
                 merge (metadataCache st !! Photo.path currentPhoto) rating label]>
               (metadataCache st) |} in
      match post (App.metadataRequest currentPhoto rating label) with
      | Http.Resolved _ => (st', [])
      | Http.Rejected => (st', [LogError "Failed to save metadata"])
      end
  end.

End Legacy.

(** ** copyFilteredPhotos *)

Module CopyTool.

(** The [alert] the function ends with. *)
Inductive Alert :=
  | SetTargetFirst
  | NoPhotos
  | Copied (count : option Z)
  | FailedToCopy.

Definition copyRequest (targetFolder : string) (st : App.State) : Http.CopyBody :=
  {| Http.files := Some (Photo.path <$> App.photos st);
     Http.destination := Some targetFolder |}.

(** [confirmed] is the answer to [confirm(...)]; the result is [None] when
    the function returns without an alert. *)
Definition copyFilteredPhotos (post : Http.CopyBody → Http.FetchResult)
    (confirmed : bool) (targetFolder : string) (st : App.State)
    : option Alert :=
  if String.eqb targetFolder "" then Some SetTargetFirst
  else if decide (JS.len (App.photos st) = 0) then Some NoPhotos
  else if negb confirmed then None
  else
    match post (copyRequest targetFolder st) with
    | Http.Resolved data =>
        if Http.is_json data then Some (Copied (Http.count_of data))
        else Some FailedToCopy
    | Http.Rejected => Some FailedToCopy
    end.

(** The copy handler as [fetch] sees it. *)
Definition postTo (env : Server.Env) (reached : bool) (body : Http.CopyBody)
    : Http.FetchResult :=
  if reached
  then Http.Resolved (Server.copyResponse (Server.postCopyFiles env body))
  else Http.Rejected.

End CopyTool.

(** GET /api/metadata as the first App's [fetch] sees it. *)
Definition getFrom (env : Server.Env) (reached : bool) (path : string)
    : option Listing.MetadataResponse :=
  if reached then Some (Listing.getMetadata env (Some path)).1 else None.

(** ** The keywords of a file as the metadata handler reads them *)

(** [currentMeta.Keywords || []], a single keyword made a list. *)
Definition keywordsOf (currentMeta : Server.Tags) : list string :=
  match Server.tagKeywords currentMeta with
  | None => []
  | Some (Server.KwString s) => if String.eqb s "" then [] else [s]
  | Some (Server.KwArray l) => l
  end.

(** A label that is one of the known colours, or none to write ([null] or
    the empty string). *)
Definition colourOrNone (label : option string) : Prop :=
  JS.truthy label = false ∨ ∃ l, label = Some l ∧ l ∈ Server.colorLabels.

(** The tag names a rating goes to, and the ones a label goes to. *)
Definition ratingTagNames : gset string :=
  {[ "Rating"; "XMP:Rating"; "RatingPercent" ]}%string.

Definition labelTagNames : gset string :=
  {[ "Label"; "XMP:Label"; "Keywords"; "Subject"; "XPKeywords" ]}%string.

(** ** More sample data *)

Module Demo.

(** [toLowerCase] on the letters A to Z. *)
Definition lowerAscii (a : ascii) : ascii :=
  let n := nat_of_ascii a in
  if decide (65 ≤ n ≤ 90)%nat then ascii_of_nat (n + 32) else a.

Fixpoint toLowerCase (s : string) : string :=
  match s with
  | EmptyString => EmptyString
  | String a s' => String (lowerAscii a) (toLowerCase s')
  end.

Definition entries : list Listing.Dirent :=
  [ Listing.mkDirent "2024" true; Listing.mkDirent ".git" true;
    Listing.mkDirent "a.jpg" false; Listing.mkDirent "raw" true ].

Definition readdir (folderPath : string) : Server.Outcome (list Listing.Dirent) :=
  if String.eqb folderPath "/pics" then Server.Ok entries
  else Server.Throw "ENOENT: no such file or directory".

(** The visible set [B; C] of the sample catalog under "3+ stars". *)
Definition exportState : App.State :=
  {| App.allPhotos := Sample.catalog; App.photos := [Sample.B; Sample.C];
     App.selectedIndex := 0; App.columnsCount := 3;
     App.filterRating := 3; App.filterColor := "All" |}.

Definition legacyState : Legacy.State :=
  {| Legacy.photos := Sample.catalog; Legacy.selectedIndex := 1;
     Legacy.metadataCache := ∅ |}.

Definition resizing : Panel.State :=
  {| Panel.thumbnailWidth := 300; Panel.isResizing := true;
     Panel.columnsCount := 3 |}.

(** A photo whose file carries the rating -1 (a rejected photo). *)
Definition rejected : PhotoRecord := Sample.photo "R.jpg" (-1) None.

(** The sample machine without the metadata tool's binary. *)
Definition noTool : Server.Env :=
  {| Server.dirname := Server.dirname Sample.env;
     Server.cwd := Server.cwd Sample.env;
     Server.localeCompare := Server.localeCompare Sample.env;
     Server.exiftoolPath := Server.Throw "Cannot find module 'exiftool-vendored.exe'";
     Server.execFile := Server.execFile Sample.env;
     Server.JSON_parse := Server.JSON_parse Sample.env;
     Server.exiftool_read := Server.exiftool_read Sample.env;
     Server.exiftool_write := Server.exiftool_write Sample.env;
     Server.existsSync := Server.existsSync Sample.env;
     Server.mkdir := Server.mkdir Sample.env;
     Server.copyFile := Server.copyFile Sample.env |}.

(** Two files of the same name in two folders, as a recursive scan lists
    them, and a third one. *)
Definition twins : list Server.RawItem :=
  [ Server.mkRawItem "x.jpg" "/pics/b/x.jpg" "2 kB" (Some 3) None;
    Server.mkRawItem "a.jpg" "/pics/a.jpg" "1 kB" None None;
    Server.mkRawItem "x.jpg" "/pics/a/x.jpg" "3 kB" (Some 5) None ].

Definition twinEnv : Server.Env :=
  {| Server.dirname := Server.dirname Sample.env;
     Server.cwd := Server.cwd Sample.env;
     Server.localeCompare := Server.localeCompare Sample.env;
     Server.exiftoolPath := Server.exiftoolPath Sample.env;
     Server.execFile := Server.execFile Sample.env;
     Server.JSON_parse := λ _, Server.Ok twins;
     Server.exiftool_read := Server.exiftool_read Sample.env;
     Server.exiftool_write := Server.exiftool_write Sample.env;
     Server.existsSync := Server.existsSync Sample.env;
     Server.mkdir := Server.mkdir Sample.env;
     Server.copyFile := Server.copyFile Sample.env |}.

(** The first App after the render in which nothing is cached, with the
    second photo selected and rated 4 since. *)
Definition ratedSince : Legacy.State :=
  {| Legacy.photos := Sample.catalog; Legacy.selectedIndex := 1;
     Legacy.metadataCache :=
       {[ Photo.path Sample.B := Legacy.mkMeta (Some 4) None ]} |}.

End Demo.

(** * Properties *)

(** ** JavaScript helpers *)

Lemma len_nonneg {A} (arr : list A) : 0 ≤ JS.len arr.
Proof. unfold JS.len. lia. Qed.

Lemma index_Some {A} (arr : list A) i x :
  JS.index arr i = Some x → 0 ≤ i < JS.len arr.
Proof.
  unfold JS.index, JS.len. case_decide; [|done].
  intros Hx%lookup_lt_Some. lia.
Qed.

Lemma index_is_Some {A} (arr : list A) i :
  0 ≤ i < JS.len arr → is_Some (JS.index arr i).
Proof.
  unfold JS.index, JS.len. intros [? ?]. rewrite decide_True by done.
  apply lookup_lt_is_Some. lia.
Qed.

Lemma index_None {A} (arr : list A) i :
  JS.len arr ≤ i → JS.index arr i = None.
Proof.
  unfold JS.index, JS.len. intros ?. case_decide; [|done].
  apply lookup_ge_None. lia.
Qed.

(** ** The filter pipeline *)

Section filter_pipeline.
Implicit Types (C : list PhotoRecord) (F : FilterCriteria) (p : PhotoRecord).
Implicit Types (r : Z) (c : string).

Lemma filter_keeps_all {A} (P : A → Prop) `{!∀ x, Decision (P x)} (l : list A) :
  (∀ x, P x) → filter P l = l.
Proof.
  intros HP. induction l as [|x l IH]; [done|].
  by rewrite filter_cons_True, IH.
Qed.

(** The two passes of the effect keep what one pass with both tests keeps. *)
Lemma applyFilters_one_pass C r c :
  App.applyFilters C r c =
  filter (λ p, (r > 0 → ratingOf p >= r) ∧ (c ≠ "All"%string → Photo.label p = Some c)) C.
Proof.
  unfold App.applyFilters.
  destruct (decide (r > 0)) as [Hr|Hr], (decide (c ≠ "All"%string)) as [Hc|Hc].
  - rewrite list_filter_filter. apply list_filter_iff. intros p. tauto.
  - apply list_filter_iff. intros p. tauto.
  - apply list_filter_iff. intros p. tauto.
  - symmetry. apply filter_keeps_all. intros p. tauto.
Qed.

Lemma applyFilters_sublist C r c : App.applyFilters C r c `sublist_of` C.
Proof. rewrite applyFilters_one_pass. apply sublist_filter. Qed.

Lemma applyFilters_idemp C r c :
  App.applyFilters (App.applyFilters C r c) r c = App.applyFilters C r c.
Proof.
  rewrite !applyFilters_one_pass, list_filter_filter.
  apply list_filter_iff. intros p. tauto.
Qed.

Lemma applyFilters_passes C F : apply C F = filter (passes F) C.
Proof. unfold apply. by rewrite applyFilters_one_pass. Qed.

(** Where the rating test is made, or would not drop a record, the effect's
    test and the specification's keep the same records. *)
Lemma passes_satisfies C F :
  minRating F > 0 ∨ Forall (λ p, ratingOf p >= minRating F) C →
  filter (passes F) C = filter (satisfies F) C.
Proof.
  intros Hor. induction C as [|p C IH]; [done|].
  assert (minRating F > 0 ∨ ratingOf p >= minRating F) as Hp.
  { destruct Hor as [?|Hall]; [by left|].
    right. by apply Forall_cons in Hall as [? _]. }
  rewrite !filter_cons, IH.
  - apply decide_ext. unfold passes, satisfies.
    destruct (decide (critLabel F = "All"%string)) as [Hc|Hc];
      (split; intros [Hr Hl]; (split; [lia|tauto])).
  - destruct Hor as [?|Hall]; [by left|].
    right. by apply Forall_cons in Hall as [_ ?].
Qed.

Lemma StronglySorted_sublist {A} (R : relation A) (l k : list A) :
  l `sublist_of` k → StronglySorted R k → StronglySorted R l.
Proof.
  intros Hsub. induction Hsub as [|x l k Hsub IH|x l k Hsub IH]; intros Hk.
  - constructor.
  - apply StronglySorted_cons in Hk as [Hx Hk].
    apply StronglySorted_cons. split; [|by apply IH].
    rewrite Forall_forall in Hx |- *. intros y Hy.
    apply Hx. revert Hy. by apply sublist_subseteq.
  - apply StronglySorted_cons in Hk as [_ Hk]. by apply IH.
Qed.

End filter_pipeline.

(** C1, as the code has it.  Whatever the catalog and the criteria, the
    visible set is the catalog filtered by the effect's test: it holds
    exactly the records whose label is the criteria's (any label for the
    wildcard ["All"]) and, when [minRating] is above 0, whose rating is at
    least [minRating]; for a [minRating] of 0 or less the rating is not
    looked at.  Each record is there as often and in the same order as in
    the catalog, so a catalog sorted by name gives a visible set sorted by
    name.  For a [minRating] above 0, and for a catalog without a rating
    below [minRating], this is the specification's predicate. *)
Theorem filter_visible_set_guarded (C : list PhotoRecord) (F : FilterCriteria) :
  apply C F = filter (passes F) C
  ∧ (∀ p, p ∈ apply C F ↔ p ∈ C ∧ passes F p)
  ∧ apply C F `sublist_of` C
  ∧ (∀ R : relation PhotoRecord,
       StronglySorted R C → StronglySorted R (apply C F))
  ∧ (minRating F > 0 → apply C F = filter (satisfies F) C)
  ∧ (Forall (λ p, ratingOf p >= minRating F) C →
       apply C F = filter (satisfies F) C)
  ∧ (minRating F ≤ 0 → critLabel F = "All"%string → apply C F = C).
Proof.
  split_and!.
  - apply applyFilters_passes.
  - intros p. rewrite applyFilters_passes, list_elem_of_filter. tauto.
  - apply applyFilters_sublist.
  - intros R. apply StronglySorted_sublist, applyFilters_sublist.
  - intros Hr. rewrite applyFilters_passes. apply passes_satisfies. by left.
  - intros Hall. rewrite applyFilters_passes. apply passes_satisfies. by right.
  - intros Hr Hc. rewrite applyFilters_passes. apply filter_keeps_all.
    intros p. unfold passes. split; [lia|congruence].
Qed.

(** C1, as the specification words it, does not hold: a photo rated -1, as the scan
    lists a file whose rating tag is -1, is in the visible set under the
    criteria (0, "All"), though its rating is below [minRating]. *)
Lemma filter_keeps_negative_rating_counterexample :
  let C := [Demo.rejected] in
  let F := mkCriteria 0 "All" in
  Server.toPhoto (Server.mkRawItem "R.jpg" "/pics/R.jpg" "1 kB" (Some (-1)) None)
    = Demo.rejected
  ∧ ratingOf Demo.rejected = -1
  ∧ ¬ satisfies F Demo.rejected
  ∧ apply C F = [Demo.rejected]
  ∧ filter (satisfies F) C = []
  ∧ ¬ (∀ p, p ∈ apply C F ↔ p ∈ C ∧ satisfies F p).
Proof.
  assert (¬ satisfies (mkCriteria 0 "All") Demo.rejected) as Hnot.
  { intros [Hr _]. vm_compute in Hr. by apply Hr. }
  split_and!.
  - reflexivity.
  - reflexivity.
  - exact Hnot.
  - reflexivity.
  - reflexivity.
  - intros Hall. apply Hnot.
    apply (Hall Demo.rejected). change (Demo.rejected ∈ [Demo.rejected]).
    apply list_elem_of_here.
Qed.

(** C2. Filtering the visible set again with the same criteria gives the
    visible set; the effect leaves the catalog and the criteria as they
    were, and running it twice is running it once. *)
Theorem filter_idempotent_pure (C : list PhotoRecord) (F : FilterCriteria)
    (st : App.State) :
  apply (apply C F) F = apply C F
  ∧ App.allPhotos (App.filterEffect st) = App.allPhotos st
  ∧ App.filterRating (App.filterEffect st) = App.filterRating st
  ∧ App.filterColor (App.filterEffect st) = App.filterColor st
  ∧ App.photos (App.filterEffect st) =
      App.applyFilters (App.allPhotos st) (App.filterRating st) (App.filterColor st)
  ∧ App.filterEffect (App.filterEffect st) = App.filterEffect st.
Proof.
  split_and!; try done.
  - apply applyFilters_idemp.
  - unfold App.filterEffect, App.setSelectedIndex, App.setPhotos, App.clamp; simpl.
    f_equal. lia.
Qed.

(** ** The selection *)

Lemma clamp_bounds (i n : Z) :
  0 ≤ i → 0 < n → 0 ≤ App.clamp i n ≤ n - 1.
Proof. unfold App.clamp. lia. Qed.

Lemma clamp_empty (i : Z) : 0 ≤ i → App.clamp i 0 = 0.
Proof. unfold App.clamp. lia. Qed.

Lemma clamp_nonneg (i n : Z) : 0 ≤ i → 0 ≤ App.clamp i n.
Proof. unfold App.clamp. lia. Qed.

(** C3. When the visible set changes, the filter effect sets the index to
    [min(i, max(0, n-1))] for the new length [n]: with [n > 0] that is an
    index from [0] to [n-1], at which there is a photo; with [n = 0] it is
    the index 0, at which there is none. *)
Theorem clamp_selects_visible (st : App.State) :
  0 ≤ App.selectedIndex st →
  let st' := App.filterEffect st in
  let n := JS.len (App.photos st') in
  App.selectedIndex st' = Z.min (App.selectedIndex st) (Z.max 0 (n - 1))
  ∧ (n > 0 → 0 ≤ App.selectedIndex st' ≤ n - 1 ∧ is_Some (App.currentPhoto st'))
  ∧ (n = 0 → App.selectedIndex st' = 0 ∧ App.currentPhoto st' = None).
Proof.
  intros Hi st' n. split_and!.
  - reflexivity.
  - intros Hn.
    assert (0 ≤ App.selectedIndex st' ≤ n - 1) as Hin.
    { apply clamp_bounds; [done|lia]. }
    split; [done|]. apply index_is_Some. fold n. lia.
  - intros Hn.
    assert (App.selectedIndex st' = 0) as H0.
    { unfold st', n in *. simpl in *. rewrite Hn. by apply clamp_empty. }
    split; [done|]. apply index_None. fold n. lia.
Qed.

Lemma clamp_selects_visible_witness :
  0 ≤ App.selectedIndex (Sample.stateAt 7)
  ∧ App.selectedIndex (App.filterEffect (Sample.stateAt 7)) = 4.
Proof.
  assert (H7 : 0 ≤ App.selectedIndex (Sample.stateAt 7)) by (simpl; lia).
  split; [exact H7|].
  destruct (clamp_selects_visible (Sample.stateAt 7) H7) as [-> _].
  reflexivity.
Defined.

(** ** The optimistic update *)

Section optimistic.
Implicit Types (C : list PhotoRecord) (p : PhotoRecord) (cp : string).
Implicit Types (rating : option Z) (label : option (option string)).

Lemma spread_nothing p : App.spread None None p = p.
Proof. by destruct p. Qed.

Lemma updateList_length cp rating label C :
  length (App.updateList cp rating label C) = length C.
Proof. unfold App.updateList. apply length_fmap. Qed.

Lemma updateList_lookup cp rating label C (i : nat) :
  App.updateList cp rating label C !! i =
  (λ p, if decide (Photo.path p = cp) then App.spread rating label p else p)
    <$> C !! i.
Proof. unfold App.updateList. apply list_lookup_fmap. Qed.

Lemma updateList_paths cp rating label C :
  Photo.path <$> App.updateList cp rating label C = Photo.path <$> C.
Proof.
  unfold App.updateList. rewrite <-list_fmap_compose.
  apply list_fmap_ext. intros _ p _. simpl. by case_decide.
Qed.

Lemma updateList_names cp rating label C :
  Photo.name <$> App.updateList cp rating label C = Photo.name <$> C.
Proof.
  unfold App.updateList. rewrite <-list_fmap_compose.
  apply list_fmap_ext. intros _ p _. simpl. by case_decide.
Qed.

Lemma updateList_absent cp rating label C :
  cp ∉ Photo.path <$> C → App.updateList cp rating label C = C.
Proof.
  intros Hnot. unfold App.updateList.
  rewrite <-(list_fmap_id C) at 2. apply list_fmap_ext.
  intros _ p Hp%list_elem_of_lookup_2. case_decide as Heq; [|done].
  destruct Hnot. subst cp. by apply list_elem_of_fmap_2.
Qed.

(** One update takes at most one record out of the visible set, when paths
    are unique. *)
Lemma visible_shrinks_by_one cp rating label C r c :
  paths_unique C →
  (length (App.applyFilters C r c) ≤
   S (length (App.applyFilters (App.updateList cp rating label C) r c)))%nat.
Proof.
  unfold paths_unique. rewrite !applyFilters_one_pass.
  set (P := λ p, (r > 0 → ratingOf p >= r) ∧ (c ≠ "All"%string → Photo.label p = Some c)).
  induction C as [|x C IH]; intros Hnd; [simpl; lia|].
  rewrite fmap_cons in Hnd. apply NoDup_cons in Hnd as [Hx Hnd].
  unfold App.updateList in *. rewrite fmap_cons.
  destruct (decide (Photo.path x = cp)) as [Heq|Hne].
  - subst cp. fold (App.updateList (Photo.path x) rating label C).
    rewrite (updateList_absent _ _ _ C Hx).
    rewrite !filter_cons.
    destruct (decide (P x)), (decide (P (App.spread rating label x))); simpl; lia.
  - specialize (IH Hnd). rewrite !filter_cons.
    destruct (decide (P x)); simpl; lia.
Qed.

End optimistic.

(** C5. The optimistic update keeps the catalog's length and the order of
    its paths and names; a record with another path is left as it was; a
    record with the path keeps its name, path and size, takes the rating
    and the label that are given and keeps the one that is not; and when no
    record has the path the catalog is returned as it was. *)
Theorem updateList_frame (C : list PhotoRecord) (cp : string)
    (rating : option Z) (label : option (option string)) :
  let C' := App.updateList cp rating label C in
  length C' = length C
  ∧ Photo.path <$> C' = Photo.path <$> C
  ∧ Photo.name <$> C' = Photo.name <$> C
  ∧ (∀ (i : nat) p, C !! i = Some p → Photo.path p ≠ cp → C' !! i = Some p)
  ∧ (∀ (i : nat) p, C !! i = Some p → Photo.path p = cp →
       ∃ p', C' !! i = Some p'
         ∧ Photo.name p' = Photo.name p
         ∧ Photo.path p' = Photo.path p
         ∧ Photo.size p' = Photo.size p
         ∧ (rating = None → Photo.rating p' = Photo.rating p)
         ∧ (label = None → Photo.label p' = Photo.label p)
         ∧ (∀ r, rating = Some r → Photo.rating p' = Some r)
         ∧ (∀ l, label = Some l → Photo.label p' = l))
  ∧ (cp ∉ Photo.path <$> C → C' = C).
Proof.
  intros C'. split_and!.
  - apply updateList_length.
  - apply updateList_paths.
  - apply updateList_names.
  - intros i p Hi Hne. unfold C'.
    rewrite updateList_lookup, Hi. simpl. by rewrite decide_False.
  - intros i p Hi Heq. exists (App.spread rating label p). split.
    + unfold C'. rewrite updateList_lookup, Hi. simpl. by rewrite decide_True.
    + split_and!; try done.
      * by intros ->.
      * by intros ->.
      * by intros r ->.
      * by intros l ->.
  - apply updateList_absent.
Qed.

(** ** updateMetadata: auto-advance and the failed write *)

Section update_metadata.
Implicit Types (st : App.State) (cp : PhotoRecord).
Implicit Types (post : Http.MetadataBody → Http.FetchResult).
Implicit Types (rating : option Z) (label : option (option string)).

(** The state [updateMetadata] leaves does not depend on what [fetch]
    returns. *)
Lemma updateMetadata_state post rating label st cp :
  App.currentPhoto st = Some cp →
  (App.updateMetadata post rating label st).1 =
  App.autoAdvance (JS.len (App.photos st))
    (App.filterEffect
       (App.setAllPhotos
          (App.updateList (Photo.path cp) rating label (App.allPhotos st)) st)).
Proof.
  intros Hcp. unfold App.updateMetadata. rewrite Hcp.
  by destruct (post _).
Qed.

Lemma updateMetadata_no_selection post rating label st :
  App.currentPhoto st = None →
  App.updateMetadata post rating label st = (st, []).
Proof. intros Hcp. unfold App.updateMetadata. by rewrite Hcp. Qed.

Lemma updateMetadata_index post rating label st cp :
  App.currentPhoto st = Some cp →
  App.selectedIndex (App.updateMetadata post rating label st).1 =
  Z.min
    (App.clamp (App.selectedIndex st)
       (JS.len (App.applyFilters
                  (App.updateList (Photo.path cp) rating label (App.allPhotos st))
                  (App.filterRating st) (App.filterColor st))) + 1)
    (JS.len (App.photos st) - 1).
Proof. intros Hcp. by rewrite (updateMetadata_state _ _ _ _ cp). Qed.

End update_metadata.

(** Issued on a settled state whose paths are unique and whose index
    points at a photo, a rating or label update leaves the index at
    [min(i+1, n-1)], for the index [i] and the length [n] the visible set
    had at the time of the key press: from 2 of 5 it goes to 3, from 4 of 5
    it stays at 4. *)
Lemma advance_from_key_press_length
    (post : Http.MetadataBody → Http.FetchResult)
    (rating : option Z) (label : option (option string)) (st : App.State) :
  settled st →
  paths_unique (App.allPhotos st) →
  is_Some (App.currentPhoto st) →
  let i := App.selectedIndex st in
  let n := JS.len (App.photos st) in
  let st' := (App.updateMetadata post rating label st).1 in
  App.selectedIndex st' = Z.min (i + 1) (n - 1)
  ∧ (n = 5 → i = 2 → App.selectedIndex st' = 3)
  ∧ (n = 5 → i = 4 → App.selectedIndex st' = 4).
Proof.
  intros Hset Huniq [cp Hcp] i n st'.
  assert (App.selectedIndex st' = Z.min (i + 1) (n - 1)) as Hidx.
  { unfold st'. rewrite (updateMetadata_index _ _ _ _ cp Hcp).
    apply index_Some in Hcp. fold i n in Hcp.
    pose proof (visible_shrinks_by_one (Photo.path cp) rating label
                  (App.allPhotos st) (App.filterRating st) (App.filterColor st)
                  Huniq) as Hshrink.
    rewrite <-Hset in Hshrink. fold i n.
    unfold App.clamp, JS.len in *. lia. }
  split_and!; [done|intros; lia|intros; lia].
Qed.

(** C4.  The code at the failing input: five photos shown under
    "3+ stars", the fourth selected, and the key "1" pressed.  The update
    takes the photo out of the visible set, which is four photos long from
    then on; the timer still holds the length 5 of the key press and leaves
    the index at 4, behind the last photo, where no photo is selected.  One
    step from 3 clamped to the visible set ends at 3, and that is where
    ArrowRight, which takes the length of the visible set at hand, leaves
    the index after the same update.  With the second photo selected, the
    update moves the selection from "p2.jpg" to "p4.jpg", over "p3.jpg",
    which took the place of "p2.jpg". *)
Theorem auto_advance_stale_length :
  let post := postTo Sample.env true in
  let st := Sample.filteredState in
  let st' := (App.updateMetadata post (Some 1) None st).1 in
  let updated :=
    App.filterEffect
      (App.setAllPhotos
         (App.updateList "/pics/p4.jpg" (Some 1) None (App.allPhotos st)) st) in
  let second := App.setSelectedIndex (λ _, 1) st in
  let second' := (App.updateMetadata post (Some 1) None second).1 in
  (settled st ∧ JS.len (App.photos st) = 5 ∧ App.selectedIndex st = 3
   ∧ Photo.name <$> App.currentPhoto st = Some "p4.jpg"%string)
  ∧ (App.handleKeyDown post "BODY" "1" st).1 = st'
  ∧ Photo.name <$> App.photos st' = ["p1.jpg"; "p2.jpg"; "p3.jpg"; "p5.jpg"]%string
  ∧ App.selectedIndex st' = 4
  ∧ App.currentPhoto st' = None
  ∧ Z.min (App.selectedIndex st + 1) (JS.len (App.photos st') - 1) = 3
  ∧ App.photos updated = App.photos st'
  ∧ App.selectedIndex (App.handleKeyDown post "BODY" "ArrowRight" updated).1 = 3
  ∧ Photo.name <$> App.currentPhoto second = Some "p2.jpg"%string
  ∧ Photo.name <$> App.photos second' = ["p1.jpg"; "p3.jpg"; "p4.jpg"; "p5.jpg"]%string
  ∧ Photo.name <$> App.currentPhoto second' = Some "p4.jpg"%string.
Proof. by vm_compute. Qed.

(** C7. When the write of an update fails (the request does not arrive, or
    the server answers with an error), the catalog is the optimistically
    updated one all the same: the records with the path hold the rating
    and label that were given, the visible set is the filter of that
    catalog, and the state is the one a successful write leaves. *)
Theorem write_failure_keeps_optimistic
    (post : Http.MetadataBody → Http.FetchResult)
    (rating : option Z) (label : option (option string))
    (st : App.State) (cp : PhotoRecord) :
  App.currentPhoto st = Some cp →
  (post (App.metadataRequest cp rating label) = Http.Rejected
   ∨ ∃ r, post (App.metadataRequest cp rating label) = Http.Resolved r
          ∧ Http.is_error r = true) →
  let st' := (App.updateMetadata post rating label st).1 in
  App.allPhotos st' =
    App.updateList (Photo.path cp) rating label (App.allPhotos st)
  ∧ (∀ p, p ∈ App.allPhotos st' → Photo.path p = Photo.path cp →
       (∀ r, rating = Some r → Photo.rating p = Some r)
       ∧ (∀ l, label = Some l → Photo.label p = l))
  ∧ App.photos st' =
      App.applyFilters (App.allPhotos st') (App.filterRating st') (App.filterColor st')
  ∧ st' = (App.updateMetadata (λ _, Http.Resolved Http.SuccessJson) rating label st).1.
Proof.
  intros Hcp _ st'.
  assert (App.allPhotos st' =
    App.updateList (Photo.path cp) rating label (App.allPhotos st)) as Hall.
  { unfold st'. by rewrite (updateMetadata_state _ _ _ _ cp Hcp). }
  split_and!.
  - done.
  - intros p. rewrite Hall. unfold App.updateList.
    intros (q & -> & _)%list_elem_of_fmap.
    case_decide as Hq; [|intros Hp; by destruct Hq].
    intros _. split; [by intros r ->|by intros l ->].
  - unfold st'. by rewrite (updateMetadata_state _ _ _ _ cp Hcp).
  - unfold st'. by rewrite !(updateMetadata_state _ _ _ _ cp Hcp).
Qed.

Lemma write_failure_keeps_optimistic_witness :
  postTo Sample.env true (App.metadataRequest Sample.locked (Some 4) None) =
    Http.Resolved (Http.ErrorJson 500 "Error: file is read-only")
  ∧ App.allPhotos
      (App.updateMetadata (postTo Sample.env true) (Some 4) None Sample.lockedState).1 =
    [Sample.photo "locked.jpg" 4 None].
Proof.
  split; [reflexivity|].
  destruct (write_failure_keeps_optimistic (postTo Sample.env true) (Some 4) None
              Sample.lockedState Sample.locked) as [-> _].
  - reflexivity.
  - right. eexists. split; reflexivity.
  - reflexivity.
Defined.

(** ** POST /api/copy-files *)

Section copy_files.
Context (env : Server.Env).
Implicit Types (files : list string) (destination : string) (count : Z).

Lemma copyLoop_all destination files count :
  Forall (copySucceeds env destination) files →
  Server.copyLoop env destination files count =
  (copyTarget destination <$> files, Server.Ok (count + JS.len files)).
Proof.
  intros Hall. revert count.
  induction Hall as [|file files [u Hu] _ IH]; intros count.
  - simpl. f_equal. f_equal. unfold JS.len. simpl. lia.
  - simpl in *. rewrite Hu, IH. unfold copyTarget. simpl.
    f_equal. f_equal. unfold JS.len. simpl. lia.
Qed.

Lemma copyLoop_stops destination files count (k : nat) file message :
  files !! k = Some file →
  Forall (copySucceeds env destination) (take k files) →
  Server.copyFile env file (copyTarget destination file).2 = Server.Throw message →
  Server.copyLoop env destination files count =
  (copyTarget destination <$> take k files, Server.Throw message).
Proof.
  revert files count. induction k as [|k IH]; intros [|f files] count Hk Hall Hthrow;
    simplify_eq/=.
  - by rewrite Hthrow.
  - apply Forall_cons in Hall as [[u Hu] Hall].
    simpl in Hu. rewrite Hu. by rewrite (IH files (count + 1) Hk Hall Hthrow).
Qed.

End copy_files.

(** C8, as the code has it.  For a request with a file list and a
    destination that exists or can be made: when every copy succeeds the
    handler answers with the number of files and has copied them all; when
    a copy fails the handler stops there, answers with status 500 and the
    failure's message and no count, and has copied only the
    files before the failing one. *)
Theorem copy_stops_at_first_failure (env : Server.Env) (body : Http.CopyBody)
    (files : list string) (destination : string) :
  Http.files body = Some files →
  Http.destination body = Some destination →
  destination ≠ ""%string →
  (Server.existsSync env destination = true
   ∨ ∃ u, Server.mkdir env destination = Server.Ok u) →
  let run := Server.postCopyFiles env body in
  (Forall (copySucceeds env destination) files →
     Server.copyResponse run = Http.CopiedJson (JS.len files)
     ∧ Server.copied run = copyTarget destination <$> files)
  ∧ (∀ (k : nat) file message,
       files !! k = Some file →
       Forall (copySucceeds env destination) (take k files) →
       Server.copyFile env file (copyTarget destination file).2 = Server.Throw message →
       Server.copyResponse run = Http.ErrorJson 500 message
       ∧ Http.count_of (Server.copyResponse run) = None
       ∧ Server.copied run = copyTarget destination <$> take k files).
Proof.
  intros Hfiles Hdest Hne Hmade run.
  assert (run =
    match Server.copyLoop env destination files 0 with
    | (copied, Server.Ok count) => Server.mkCopyRun (Http.CopiedJson count) [] copied
    | (copied, Server.Throw message) =>
        Server.mkCopyRun (Http.ErrorJson 500 message)
          [LogError "Error copying files:"] copied
    end) as Hrun.
  { unfold run, Server.postCopyFiles. rewrite Hfiles, Hdest. simpl.
    destruct destination as [|a d]; [done|]. simpl.
    destruct Hmade as [->|[u Hu]]; [done|].
    rewrite Hu. by destruct (Server.existsSync env _). }
  split.
  - intros Hall. rewrite Hrun, (copyLoop_all env destination files 0 Hall).
    simpl. by rewrite Z.add_0_l.
  - intros k file message Hk Hall Hthrow.
    rewrite Hrun, (copyLoop_stops env destination files 0 k file message Hk Hall Hthrow).
    done.
Qed.

Lemma copy_stops_at_first_failure_witness :
  Server.copyResponse (Server.postCopyFiles Sample.env Sample.batch) =
    Http.ErrorJson 500 "ENOENT: no such file or directory"
  ∧ Server.copied (Server.postCopyFiles Sample.env Sample.batch) =
    [("/pics/a.jpg", "/out/a.jpg"); ("/pics/b.jpg", "/out/b.jpg")]%string.
Proof.
  destruct (copy_stops_at_first_failure Sample.env Sample.batch
    ["/pics/a.jpg"; "/pics/b.jpg"; "/pics/c.jpg"; "/pics/d.jpg"; "/pics/e.jpg"]%string
    "/out"%string) as [_ Hstop]; [reflexivity|reflexivity|discriminate|by left|].
  destruct (Hstop 2%nat "/pics/c.jpg"%string
              "ENOENT: no such file or directory"%string)
    as (Hres & _ & Hcopied).
  - reflexivity.
  - repeat constructor; by exists tt.
  - reflexivity.
  - split; [exact Hres|exact Hcopied].
Defined.

(** C8, as the specification words it, does not hold: of five files of which only the third
    is missing, the handler copies the first two, does not try the fourth
    and fifth although their copies would succeed, and answers with status
    500 and no count instead of [count = 4]. *)
Lemma copy_batch_aborts_counterexample :
  let run := Server.postCopyFiles Sample.env Sample.batch in
  Server.copyFile Sample.env "/pics/d.jpg" "/out/d.jpg" = Server.Ok tt
  ∧ Server.copyFile Sample.env "/pics/e.jpg" "/out/e.jpg" = Server.Ok tt
  ∧ Server.copyResponse run ≠ Http.CopiedJson 4
  ∧ Http.count_of (Server.copyResponse run) = None
  ∧ Http.is_error (Server.copyResponse run) = true
  ∧ Server.copied run =
      [("/pics/a.jpg", "/out/a.jpg"); ("/pics/b.jpg", "/out/b.jpg")]%string.
Proof. vm_compute. split_and!; done. Qed.

(** ** Ratings: the keyboard handler and POST /api/metadata *)

Section ratings.
Implicit Types (st : App.State) (C : list PhotoRecord) (p : PhotoRecord).

(** The keys that rate: 0 to 5. *)
Lemma keyCommand_rating columnsCount n key rating label :
  App.keyCommand columnsCount n key = App.Update rating label →
  ∀ r, rating = Some r → 0 ≤ r ≤ 5.
Proof.
  unfold App.keyCommand.
  repeat (destruct (String.eqb key _); [intros ?; simplify_eq; intros; simplify_eq; lia|]).
  done.
Qed.

Lemma keyRating_range key r : App.keyRating key = Some r → 0 ≤ r ≤ 5.
Proof.
  unfold App.keyRating.
  destruct (App.keyCommand 3 1 key) as [f|rating label|] eqn:Hcmd; try done.
  intros ->. by eapply keyCommand_rating.
Qed.

Lemma spread_rating_range rating label p :
  (∀ r, rating = Some r → 0 ≤ r ≤ 5) →
  0 ≤ ratingOf p ≤ 5 → 0 ≤ ratingOf (App.spread rating label p) ≤ 5.
Proof.
  intros Hr Hp. unfold ratingOf, App.spread; simpl.
  destruct rating as [r|]; [|done].
  specialize (Hr r eq_refl). simpl. case_decide; lia.
Qed.

Lemma updateList_ratings_in_range cp rating label C :
  (∀ r, rating = Some r → 0 ≤ r ≤ 5) →
  ratings_in_range C → ratings_in_range (App.updateList cp rating label C).
Proof.
  intros Hr. unfold ratings_in_range, App.updateList.
  rewrite Forall_fmap. intros HC. eapply Forall_impl; [exact HC|].
  intros p Hp. simpl.
  case_decide; [by apply spread_rating_range|done].
Qed.

(** Key presses keep the ratings of the catalog between 0 and 5. *)
Lemma handleKeyDown_ratings_in_range post tagName key st :
  ratings_in_range (App.allPhotos st) →
  ratings_in_range (App.allPhotos (App.handleKeyDown post tagName key st).1).
Proof.
  intros Hin. unfold App.handleKeyDown.
  destruct (String.eqb tagName "INPUT"); [done|].
  case_decide; [done|].
  destruct (App.keyCommand _ _ key) as [f|rating label|] eqn:Hcmd; try done.
  destruct (App.currentPhoto st) as [cp|] eqn:Hcp.
  - rewrite (updateMetadata_state _ _ _ _ cp Hcp). simpl.
    apply updateList_ratings_in_range; [|done].
    by eapply keyCommand_rating.
  - by rewrite updateMetadata_no_selection.
Qed.

(** What the handler hands to [exiftool.write] for a rating. *)
Lemma postMetadata_written env body file tags :
  Server.written (Server.postMetadata env body) = Some (file, tags) →
  ∀ r, Http.rating body = Some r →
  tags !! "Rating"%string = Some (Server.TNum r)
  ∧ tags !! "XMP:Rating"%string = Some (Server.TNum r)
  ∧ tags !! "RatingPercent"%string =
      Some (Server.TNum (JS.num_or (Server.ratingMap !! r) 0)).
Proof.
  unfold Server.postMetadata.
  destruct (negb (JS.truthy (Http.file body))); [done|].
  intros Hw r Hr. rewrite Hr in Hw.
  destruct (Http.label body) as [label|].
  - destruct (Server.exiftool_read env _) as [currentMeta|?]; [|done].
    destruct (Server.exiftool_write env _ _ _); [|done].
    simpl in Hw. simplify_eq.
    unfold Server.labelTags, Server.ratingTags. by simplify_map_eq.
  - destruct (Server.exiftool_write env _ _ _); [|done].
    simpl in Hw. simplify_eq.
    unfold Server.ratingTags. by simplify_map_eq.
Qed.

Lemma ratingMap_percent r :
  0 ≤ JS.num_or (Server.ratingMap !! r) 0 ≤ 99
  ∧ (¬ (0 ≤ r ≤ 5) → JS.num_or (Server.ratingMap !! r) 0 = 0).
Proof.
  destruct (decide (r = 0)) as [->|];
    [replace (Server.ratingMap !! 0) with (Some 0) by (by vm_compute); simpl; lia|].
  destruct (decide (r = 1)) as [->|];
    [replace (Server.ratingMap !! 1) with (Some 1) by (by vm_compute); simpl; lia|].
  destruct (decide (r = 2)) as [->|];
    [replace (Server.ratingMap !! 2) with (Some 25) by (by vm_compute); simpl; lia|].
  destruct (decide (r = 3)) as [->|];
    [replace (Server.ratingMap !! 3) with (Some 50) by (by vm_compute); simpl; lia|].
  destruct (decide (r = 4)) as [->|];
    [replace (Server.ratingMap !! 4) with (Some 75) by (by vm_compute); simpl; lia|].
  destruct (decide (r = 5)) as [->|];
    [replace (Server.ratingMap !! 5) with (Some 99) by (by vm_compute); simpl; lia|].
  unfold Server.ratingMap.
  simpl. rewrite !lookup_insert_ne, lookup_empty by done. simpl. lia.
Qed.

End ratings.

(** C9, as the code has it.  The ratings the keyboard handler issues lie
    from 0 to 5, and key presses keep every rating of the in-memory catalog
    in that range.  The handler of POST /api/metadata does not check the
    range: the rating of the request goes to the tags [Rating] and
    [XMP:Rating] as it is; only [RatingPercent] is bounded, and is 0 for a
    rating outside 0 to 5. *)
Theorem rating_range_kept_by_keys_only (env : Server.Env)
    (body : Http.MetadataBody) (r : Z) (file : string)
    (tags : gmap string Server.TagVal) :
  Http.rating body = Some r →
  Server.written (Server.postMetadata env body) = Some (file, tags) →
  (tags !! "Rating"%string = Some (Server.TNum r)
   ∧ tags !! "XMP:Rating"%string = Some (Server.TNum r)
   ∧ ∃ pct, tags !! "RatingPercent"%string = Some (Server.TNum pct)
       ∧ 0 ≤ pct ≤ 99 ∧ (¬ (0 ≤ r ≤ 5) → pct = 0))
  ∧ (∀ key r', App.keyRating key = Some r' → 0 ≤ r' ≤ 5)
  ∧ (∀ post tagName key st,
       ratings_in_range (App.allPhotos st) →
       ratings_in_range (App.allPhotos (App.handleKeyDown post tagName key st).1)).
Proof.
  intros Hr Hw.
  destruct (postMetadata_written env body file tags Hw r Hr) as (H1 & H2 & H3).
  split_and!; try done.
  - exists (JS.num_or (Server.ratingMap !! r) 0).
    pose proof (ratingMap_percent r) as [? ?]. done.
  - apply keyRating_range.
  - apply handleKeyDown_ratings_in_range.
Qed.

Lemma rating_range_kept_by_keys_only_witness :
  Server.storedRating
    (Server.postMetadata Sample.env
       (Http.mkMetadataBody (Some "/pics/a.jpg"%string) (Some 3) None)) =
  Some (Server.TNum 3).
Proof.
  pose (body := Http.mkMetadataBody (Some "/pics/a.jpg"%string) (Some 3) None).
  destruct (Server.written (Server.postMetadata Sample.env body))
    as [[file tags]|] eqn:Hw; [|by vm_compute in Hw].
  destruct (rating_range_kept_by_keys_only Sample.env body 3 file tags eq_refl Hw)
    as ((Hrating & _) & _).
  unfold Server.storedRating. fold body. rewrite Hw. simpl. exact Hrating.
Defined.

(** C9, as the specification words it, does not hold: a request with rating 7 is answered
    with success, and the rating handed to [exiftool.write] is 7, neither
    rejected nor clamped. *)
Lemma rating_out_of_range_counterexample :
  let run :=
    Server.postMetadata Sample.env
      (Http.mkMetadataBody (Some "/pics/a.jpg"%string) (Some 7) None) in
  Server.response run = Http.SuccessJson
  ∧ Server.storedRating run = Some (Server.TNum 7)
  ∧ ¬ (0 ≤ 7 ≤ 5).
Proof. split_and!; [by vm_compute..|lia]. Qed.

(** ** GET /api/photos and the scan *)

Section scan_photos.
Context (env : Server.Env).
Implicit Types (path folderPath : string) (recursive : bool) (st : App.State).

Lemma recursive_flag recursive :
  bool_decide (Some (if recursive then "true" else "false")%string = Some "true"%string)
  = recursive.
Proof. by destruct recursive. Qed.

(** The record the handler builds is the one the tool's item stands for. *)
Lemma toPhoto_recordOf item : Server.toPhoto item = recordOf item.
Proof.
  unfold Server.toPhoto, recordOf, JS.num_or, JS.truthy.
  destruct item as [n p sz [r|] [l|]]; simpl; repeat case_decide;
    try (destruct (String.eqb l "")); simpl; congruence.
Qed.

Lemma insertByName_Permutation photo sorted :
  Server.insertByName env photo sorted ≡ₚ photo :: sorted.
Proof.
  induction sorted as [|other rest IH]; simpl; [done|].
  case_decide; [done|]. rewrite IH. apply Permutation_swap.
Qed.

Lemma sortByName_Permutation photos : Server.sortByName env photos ≡ₚ photos.
Proof.
  induction photos as [|photo photos IH]; simpl; [done|].
  fold (Server.sortByName env photos).
  by rewrite insertByName_Permutation, IH.
Qed.

Lemma insertByName_sorted photo sorted :
  Total (Server.name_le env) → Transitive (Server.name_le env) →
  StronglySorted (Server.name_le env) sorted →
  StronglySorted (Server.name_le env) (Server.insertByName env photo sorted).
Proof.
  intros Htotal Htrans. induction sorted as [|other rest IH]; simpl; intros Hs.
  - repeat constructor.
  - apply StronglySorted_cons in Hs as [Hall Hrest]. case_decide as Hle.
    + apply StronglySorted_cons. split.
      * apply Forall_cons. split; [done|].
        eapply Forall_impl; [exact Hall|]. intros z Hz. by transitivity other.
      * by apply StronglySorted_cons.
    + apply StronglySorted_cons. split; [|by apply IH].
      rewrite insertByName_Permutation. apply Forall_cons. split; [|done].
      by destruct (Htotal photo other).
Qed.

Lemma sortByName_sorted photos :
  Total (Server.name_le env) → Transitive (Server.name_le env) →
  StronglySorted (Server.name_le env) (Server.sortByName env photos).
Proof.
  intros Htotal Htrans. induction photos as [|photo photos IH]; simpl.
  - constructor.
  - by apply insertByName_sorted.
Qed.

(** Stability: the records that satisfy [P] are not told apart by the
    order, so they come out as they went in. *)
Lemma insertByName_stable (P : PhotoRecord → Prop) `{!∀ p, Decision (P p)}
    photo sorted :
  (∀ a b, P a → P b → Server.name_le env a b) →
  filter P (Server.insertByName env photo sorted) = filter P (photo :: sorted).
Proof.
  intros Hties. induction sorted as [|other rest IH]; simpl; [done|].
  case_decide as Hle; [done|].
  rewrite (filter_cons P other), IH, !filter_cons.
  destruct (decide (P photo)) as [Hp|Hp], (decide (P other)) as [Ho|Ho]; try done.
  destruct Hle. by apply Hties.
Qed.

Lemma sortByName_stable (P : PhotoRecord → Prop) `{!∀ p, Decision (P p)} photos :
  (∀ a b, P a → P b → Server.name_le env a b) →
  filter P (Server.sortByName env photos) = filter P photos.
Proof.
  intros Hties. induction photos as [|photo photos IH]; simpl; [done|].
  fold (Server.sortByName env photos).
  rewrite (insertByName_stable P) by done.
  by rewrite !filter_cons, IH.
Qed.

Lemma sortByName_named n photos :
  Total (Server.name_le env) →
  named n (Server.sortByName env photos) = named n photos.
Proof.
  intros Htotal. unfold named. apply (sortByName_stable (λ p, Photo.name p = n)).
  intros a b Ha Hb. unfold Server.name_le. rewrite Ha, <-Hb.
  by destruct (Htotal b b).
Qed.

(** The photo list the handler builds from the tool's items: one record
    per item, with the item's fields; sorted by name; records of the same
    name in the tool's order. *)
Lemma listed_records rawData :
  let photos := Server.sortByName env (Server.toPhoto <$> rawData) in
  photos ≡ₚ recordOf <$> rawData
  ∧ length photos = length rawData
  ∧ Photo.name <$> photos ≡ₚ Server.FileName <$> rawData
  ∧ Photo.path <$> photos ≡ₚ Server.SourceFile <$> rawData
  ∧ (Total (Server.name_le env) → Transitive (Server.name_le env) →
       StronglySorted
         (λ a b, Server.localeCompare env (Photo.name a) (Photo.name b) ≤ 0) photos)
  ∧ (Total (Server.name_le env) →
       ∀ n, named n photos = named n (recordOf <$> rawData)).
Proof.
  intros photos.
  assert (Server.toPhoto <$> rawData = recordOf <$> rawData) as Heq.
  { apply list_fmap_ext. intros ? item _. apply toPhoto_recordOf. }
  assert (photos ≡ₚ recordOf <$> rawData) as Hperm.
  { unfold photos. rewrite Heq. apply sortByName_Permutation. }
  split_and!.
  - done.
  - by rewrite Hperm, length_fmap.
  - rewrite Hperm, <-list_fmap_compose. done.
  - rewrite Hperm, <-list_fmap_compose. done.
  - intros Htotal Htrans. by apply sortByName_sorted.
  - intros Htotal n. unfold photos. rewrite Heq. by apply sortByName_named.
Qed.

(** The handler's response and log, by what the tool delivers. *)
Lemma getPhotos_listed query_path query_recursive rawData :
  toolOutput env (bool_decide (query_recursive = Some "true"%string))
    (Server.getSafePath env query_path) = Some rawData →
  Server.getPhotos env query_path query_recursive =
  (Http.PhotosJson (Server.getSafePath env query_path)
     (Server.sortByName env (Server.toPhoto <$> rawData)),
   [LogInfo "Scanning:"]).
Proof.
  unfold toolOutput, Server.getPhotos.
  destruct (Server.exiftoolPath env) as [bin|]; [|done].
  destruct (Server.execFile env bin _) as [|stdout]; [done|].
  destruct (Server.JSON_parse env stdout); [|done].
  by intros [= ->].
Qed.

Lemma getPhotos_failed query_path query_recursive :
  toolOutput env (bool_decide (query_recursive = Some "true"%string))
    (Server.getSafePath env query_path) = None →
  Http.photos_or_empty (Server.getPhotos env query_path query_recursive).1 = []
  ∧ Exists (λ l, is_Error l = true)
      (Server.getPhotos env query_path query_recursive).2
  ∧ (∀ bin, Server.exiftoolPath env = Server.Ok bin →
       (Server.getPhotos env query_path query_recursive).1 =
       Http.PhotosJson (Server.getSafePath env query_path) []).
Proof.
  unfold toolOutput, Server.getPhotos.
  destruct (Server.exiftoolPath env) as [bin|].
  - destruct (Server.execFile env bin _) as [|stdout].
    + intros _. split_and!; [done| |done].
      apply Exists_cons_tl, Exists_cons_hd. done.
    + destruct (Server.JSON_parse env stdout); [done|].
      intros _. split_and!; [done| |done].
      apply Exists_cons_tl, Exists_cons_hd. done.
  - intros _. split_and!; [done| |done].
    apply Exists_cons_tl, Exists_cons_hd. done.
Qed.

Lemma scan_reached path recursive st :
  scan env true path recursive st =
  (App.setAllPhotos
     (Http.photos_or_empty
        (Server.getPhotos env (Some path)
           (Some (if recursive then "true" else "false")%string)).1) st,
   (Server.getPhotos env (Some path)
      (Some (if recursive then "true" else "false")%string)).2 ++ []).
Proof.
  unfold scan, Server.getPhotos.
  destruct (Server.exiftoolPath env) as [bin|]; [|done].
  destruct (Server.execFile env bin _) as [|stdout]; [done|].
  by destruct (Server.JSON_parse env stdout).
Qed.

(** The extensions the tool is told to list. *)
Lemma scanArgs_extensions recursive folderPath ext :
  ext ∈ ["jpg"; "jpeg"; "png"; "JPG"; "JPEG"; "PNG"]%string →
  ∃ before after,
    Server.scanArgs recursive folderPath = before ++ ["-ext"%string; ext] ++ after.
Proof.
  intros Hext. unfold Server.scanArgs.
  repeat (apply elem_of_cons in Hext as [->|Hext]);
    [| | | | | |by apply elem_of_nil in Hext].
  - exists ["-json"; "-fast"]%string. destruct recursive; eexists; reflexivity.
  - exists ["-json"; "-fast"; "-ext"; "jpg"]%string. destruct recursive; eexists; reflexivity.
  - exists ["-json"; "-fast"; "-ext"; "jpg"; "-ext"; "jpeg"]%string. destruct recursive; eexists; reflexivity.
  - exists ["-json"; "-fast"; "-ext"; "jpg"; "-ext"; "jpeg"; "-ext"; "png"]%string.
    destruct recursive; eexists; reflexivity.
  - exists ["-json"; "-fast"; "-ext"; "jpg"; "-ext"; "jpeg"; "-ext"; "png";
            "-ext"; "JPG"]%string.
    destruct recursive; eexists; reflexivity.
  - exists ["-json"; "-fast"; "-ext"; "jpg"; "-ext"; "jpeg"; "-ext"; "png";
            "-ext"; "JPG"; "-ext"; "JPEG"]%string.
    destruct recursive; eexists; reflexivity.
Qed.

Lemma scanArgs_last recursive folderPath :
  last (Server.scanArgs recursive folderPath) = Some folderPath.
Proof. unfold Server.scanArgs. by rewrite last_snoc. Qed.

End scan_photos.

(** C6. A scan either degrades or lists.  When the metadata tool delivers
    nothing (its binary is missing, it exits with an error, or its output
    does not parse) or the request does not reach the server, the catalog
    the scan leaves is empty and an error line is logged; when the binary
    is there the handler itself answers with an empty photo list, not an
    error.  Otherwise the catalog holds one record per item of the tool's
    output, with the item's file name, path and size, the item's rating (0
    without one) and its label (none for a missing or empty one); the
    records are sorted by name with [localeCompare] (taken to be a total
    and transitive order), those of the same name in the tool's order; the
    tool is asked for the extensions jpg, jpeg and png in lower and in
    upper case. *)
Theorem scan_degrades_or_lists (env : Server.Env) (path : string)
    (recursive : bool) (st : App.State) :
  Total (Server.name_le env) →
  Transitive (Server.name_le env) →
  let folderPath := Server.getSafePath env (Some path) in
  let query_recursive := Some (if recursive then "true" else "false")%string in
  let result := scan env true path recursive st in
  (toolOutput env recursive folderPath = None →
     App.allPhotos result.1 = []
     ∧ Exists (λ l, is_Error l = true) result.2
     ∧ (∀ bin, Server.exiftoolPath env = Server.Ok bin →
          (Server.getPhotos env (Some path) query_recursive).1 =
          Http.PhotosJson folderPath []))
  ∧ (∀ rawData, toolOutput env recursive folderPath = Some rawData →
       App.allPhotos result.1 ≡ₚ
         (λ item,
            {| Photo.name := Server.FileName item;
               Photo.path := Server.SourceFile item;
               Photo.size := Server.FileSize item;
               Photo.rating := Some (default 0 (Server.Rating item));
               Photo.label :=
                 match Server.Label item with
                 | Some l => if String.eqb l "" then None else Some l
                 | None => None
                 end |}) <$> rawData
       ∧ App.allPhotos result.1 ≡ₚ Server.toPhoto <$> rawData
       ∧ length (App.allPhotos result.1) = length rawData
       ∧ Photo.name <$> App.allPhotos result.1 ≡ₚ Server.FileName <$> rawData
       ∧ Photo.path <$> App.allPhotos result.1 ≡ₚ Server.SourceFile <$> rawData
       ∧ StronglySorted (Server.name_le env) (App.allPhotos result.1)
       ∧ StronglySorted
           (λ a b, Server.localeCompare env (Photo.name a) (Photo.name b) ≤ 0)
           (App.allPhotos result.1)
       ∧ (∀ n, named n (App.allPhotos result.1) = named n (recordOf <$> rawData))
       ∧ (Server.getPhotos env (Some path) query_recursive).1 =
           Http.PhotosJson folderPath (App.allPhotos result.1))
  ∧ (App.allPhotos (scan env false path recursive st).1 = []
     ∧ Exists (λ l, is_Error l = true) (scan env false path recursive st).2)
  ∧ (∀ ext, ext ∈ ["jpg"; "jpeg"; "png"; "JPG"; "JPEG"; "PNG"]%string →
       ∃ before after,
         Server.scanArgs recursive folderPath =
         before ++ ["-ext"%string; ext] ++ after).
Proof.
  intros Htotal Htrans folderPath query_recursive result.
  unfold result. rewrite scan_reached. fold query_recursive. simpl.
  split_and!.
  - intros Hnone.
    destruct (getPhotos_failed env (Some path) query_recursive) as (H1 & H2 & H3).
    { unfold query_recursive. by rewrite recursive_flag. }
    split_and!; [done| |done]. by rewrite app_nil_r.
  - intros rawData Hsome.
    rewrite (getPhotos_listed env (Some path) query_recursive rawData)
      by (unfold query_recursive; by rewrite recursive_flag).
    simpl.
    destruct (listed_records env rawData) as (Hperm & Hlen & Hnames & Hpaths & Hsorted & Hstable).
    split_and!.
    + exact Hperm.
    + apply sortByName_Permutation.
    + exact Hlen.
    + exact Hnames.
    + exact Hpaths.
    + by apply Hsorted.
    + by apply Hsorted.
    + by apply Hstable.
    + done.
  - done.
  - apply Exists_cons_hd. done.
  - apply scanArgs_extensions.
Qed.

Lemma codeUnitCompare_le a b :
  Sample.codeUnitCompare a b ≤ 0 ↔ String.le a b.
Proof.
  unfold Sample.codeUnitCompare, String.le, String.leb.
  destruct (String.compare a b); simpl; split; try done; lia.
Qed.

Lemma sample_name_le_total : Total (Server.name_le Sample.env).
Proof.
  intros a b. unfold Server.name_le. simpl.
  rewrite !codeUnitCompare_le. apply (total String.le).
Qed.

Lemma sample_name_le_trans : Transitive (Server.name_le Sample.env).
Proof.
  intros a b c. unfold Server.name_le. simpl.
  rewrite !codeUnitCompare_le. apply (transitivity (R:=String.le)).
Qed.

Lemma scan_degrades_or_lists_witness :
  (StronglySorted (Server.name_le Sample.env)
     (App.allPhotos (scan Sample.env true "/pics" false App.initial).1)
   ∧ Photo.path <$> App.allPhotos (scan Sample.env true "/pics" false App.initial).1
       ≡ₚ ["/pics/b.png"; "/pics/a.JPG"]%string)
  ∧ Photo.path <$>
      named "x.jpg" (App.allPhotos (scan Demo.twinEnv true "/pics" true App.initial).1)
    = ["/pics/b/x.jpg"; "/pics/a/x.jpg"]%string
  ∧ App.allPhotos (scan Sample.env true "/nowhere" false App.initial).1 = [].
Proof.
  split; [|split].
  - destruct (scan_degrades_or_lists Sample.env "/pics" false App.initial
                sample_name_le_total sample_name_le_trans)
      as (_ & Hlisted & _).
    destruct (Hlisted Sample.rawItems)
      as (_ & _ & _ & _ & Hpaths & Hsorted & _); [reflexivity|].
    split; [exact Hsorted|exact Hpaths].
  - destruct (scan_degrades_or_lists Demo.twinEnv "/pics" true App.initial
                sample_name_le_total sample_name_le_trans)
      as (_ & Hlisted & _).
    destruct (Hlisted Demo.twins)
      as (_ & _ & _ & _ & _ & _ & _ & Hstable & _); [reflexivity|].
    rewrite (Hstable "x.jpg"%string). reflexivity.
  - destruct (scan_degrades_or_lists Sample.env "/nowhere" false App.initial
                sample_name_le_total sample_name_le_trans)
      as (Hfailed & _).
    destruct Hfailed as (Hempty & _); [reflexivity|].
    exact Hempty.
Defined.

(** ** DEFAULT_ROOT and getSafePath *)

Section paths.
Implicit Types (s seg rest : string) (ds stack : list string).

Lemma string_app_nil_l s : ("" ++ s)%string = s.
Proof. reflexivity. Qed.

Lemma string_app_cons a s1 s2 : (String a s1 ++ s2)%string = String a (s1 ++ s2).
Proof. reflexivity. Qed.

Lemma string_app_assoc (s1 s2 s3 : string) :
  ((s1 ++ s2) ++ s3 = s1 ++ (s2 ++ s3))%string.
Proof.
  induction s1 as [|a s1 IH]; [done|].
  by rewrite !string_app_cons, IH.
Qed.

Lemma split_nonempty s : Path.split s ≠ [].
Proof.
  induction s as [|a s IH]; simpl; [done|].
  destruct (Ascii.eqb a Path.slash); [done|]. by destruct (Path.split s).
Qed.

(** A segment without a slash, followed by a slash, is the first piece. *)
Lemma split_segment seg rest :
  Path.slashFree seg = true →
  Path.split (seg ++ String Path.slash rest) = seg :: Path.split rest.
Proof.
  induction seg as [|a seg IH]; intros Hfree.
  - done.
  - simpl in Hfree. apply andb_prop in Hfree as [Ha Hfree].
    rewrite string_app_cons. simpl.
    destruct (Ascii.eqb a Path.slash); [done|]. by rewrite IH.
Qed.

Lemma normalize_plain allowAboveRoot stack seg segs :
  Path.plain seg →
  Path.normalizeSegments allowAboveRoot stack (seg :: segs) =
  Path.normalizeSegments allowAboveRoot (seg :: stack) segs.
Proof.
  intros (_ & H1 & H2 & H3). simpl.
  apply String.eqb_neq in H1, H2, H3. by rewrite H1, H2, H3.
Qed.

(** Normalizing a joined list of plain segments pushes them all. *)
Lemma normalize_join stack ds rest :
  Forall Path.plain ds →
  Path.normalizeSegments false stack
    (Path.split (Path.joinSegments ds ++ String Path.slash rest)) =
  Path.normalizeSegments false (reverse ds ++ stack) (Path.split rest).
Proof.
  intros Hds. revert stack.
  induction Hds as [|d ds Hd Hds IH]; intros stack.
  - done.
  - destruct ds as [|d' ds].
    + unfold Path.joinSegments. simpl String.concat.
      rewrite split_segment by apply Hd.
      by rewrite normalize_plain.
    + unfold Path.joinSegments in *.
      change (String.concat "/" (d :: d' :: ds))
        with (d ++ String Path.slash (String.concat "/" (d' :: ds)))%string.
      rewrite string_app_assoc, string_app_cons.
      rewrite split_segment by apply Hd.
      rewrite normalize_plain by done.
      rewrite IH. by rewrite (reverse_cons (d' :: ds) d), <-app_assoc.
Qed.

(** Two [".."] take the last two segments off, and none at the root. *)
Lemma normalize_two_up ds :
  Forall Path.plain ds →
  Path.normalizeSegments false (reverse ds) [".."; ".."; ""]%string =
  take (length ds - 2) ds.
Proof.
  intros Hds.
  rewrite <-(reverse_involutive (take _ ds)), reverse_take.
  replace (length ds - (length ds - 2))%nat with (Nat.min 2 (length ds)) by lia.
  apply Forall_reverse in Hds. rewrite <-length_reverse.
  destruct (reverse ds) as [|d1 [|d2 stack]]; [done| |].
  - apply Forall_cons in Hds as [(_ & _ & _ & H1%String.eqb_neq) _].
    simpl. by rewrite H1.
  - apply Forall_cons in Hds as [(_ & _ & _ & H1%String.eqb_neq) Hds].
    apply Forall_cons in Hds as [(_ & _ & _ & H2%String.eqb_neq) _].
    simpl. by rewrite H1, H2.
Qed.

(** From a directory [/d1/.../dn], ['../..'] resolves to [/d1/.../d(n-2)]. *)
Lemma resolve_two_up cwd ds :
  Forall Path.plain ds →
  Path.resolve cwd [("/" ++ Path.joinSegments ds)%string; "../.."%string] =
  ("/" ++ Path.joinSegments (take (length ds - 2) ds))%string.
Proof.
  intros Hds. unfold Path.resolve. simpl.
  rewrite string_app_nil_l.
  change ("/" ++ "../.." ++ "/" ++ "")%string with (String Path.slash "../../").
  rewrite (normalize_join [] ds) by done.
  rewrite app_nil_r. change (Path.split "../../") with [".."; ".."; ""]%string.
  by rewrite normalize_two_up.
Qed.

Lemma split_slashFree s : Forall (λ seg, Path.slashFree seg = true) (Path.split s).
Proof.
  induction s as [|a s IH]; simpl.
  - by repeat constructor.
  - destruct (Ascii.eqb a Path.slash) eqn:Ha; [by constructor|].
    destruct (Path.split s) as [|seg segs] eqn:Hs; [by apply split_nonempty in Hs|].
    apply Forall_cons in IH as [Hseg Hsegs].
    constructor; [|done]. simpl. by rewrite Ha, Hseg.
Qed.

(** Below the root, normalizing leaves plain segments only. *)
Lemma normalize_all_plain stack segs :
  Forall Path.plain stack →
  Forall (λ seg, Path.slashFree seg = true) segs →
  Forall Path.plain (Path.normalizeSegments false stack segs).
Proof.
  intros Hstack Hsegs. revert stack Hstack.
  induction Hsegs as [|seg segs Hseg _ IH]; intros stack Hstack; simpl.
  - by apply Forall_reverse.
  - destruct (String.eqb seg "") eqn:H1; [by apply IH|].
    destruct (String.eqb seg ".") eqn:H2; [by apply IH|]. simpl.
    destruct (String.eqb seg "..") eqn:H3.
    + destruct stack as [|top stack]; [by apply IH|].
      apply Forall_cons in Hstack as [(_ & _ & _ & Htop%String.eqb_neq) Hstack].
      rewrite Htop. by apply IH.
    + apply IH. constructor; [|done].
      apply String.eqb_neq in H1, H2, H3. done.
Qed.

(** Resolving a resolved path gives it back. *)
Lemma resolve_resolved cwd ds :
  Forall Path.plain ds →
  Path.resolve cwd [("/" ++ Path.joinSegments ds)%string] =
  ("/" ++ Path.joinSegments ds)%string.
Proof.
  intros Hds. unfold Path.resolve. simpl.
  rewrite string_app_nil_l.
  change ("/" ++ "")%string with (String Path.slash "").
  rewrite (normalize_join [] ds) by done.
  rewrite app_nil_r. simpl. by rewrite reverse_involutive.
Qed.

(** What [path.resolve] gives for an absolute [__dirname] is a slash and
    plain segments. *)
Lemma DEFAULT_ROOT_resolved env :
  Path.isAbsolute (Server.dirname env) = true →
  ∃ ds, Forall Path.plain ds
    ∧ Server.DEFAULT_ROOT env = ("/" ++ Path.joinSegments ds)%string.
Proof.
  intros Habs. unfold Server.DEFAULT_ROOT, Path.resolve.
  destruct (Server.dirname env) as [|a d]; [done|].
  simpl in Habs. simpl. rewrite Habs.
  eexists. split; [|reflexivity].
  apply normalize_all_plain; [done|apply split_slashFree].
Qed.

Lemma getSafePath_absent env query_path :
  query_path = None ∨ query_path = Some ""%string →
  Server.getSafePath env query_path = Server.DEFAULT_ROOT env.
Proof. by intros [-> | ->]. Qed.

Lemma getSafePath_DEFAULT_ROOT env :
  Path.isAbsolute (Server.dirname env) = true →
  Server.getSafePath env (Some (Server.DEFAULT_ROOT env)) = Server.DEFAULT_ROOT env.
Proof.
  intros (ds & Hds & Hroot)%DEFAULT_ROOT_resolved.
  unfold Server.getSafePath. rewrite Hroot.
  rewrite string_app_cons. simpl. by apply resolve_resolved.
Qed.

End paths.

(** C10, as the code has it.  A request to GET /api/photos whose [path]
    parameter is absent or empty is served as a scan of [DEFAULT_ROOT]: the
    folder the tool is run over is [DEFAULT_ROOT], which is [__dirname]
    without its last two segments.  When the tool's binary is found, the
    response is not an error: it carries [DEFAULT_ROOT] and the photo list
    of that folder, empty when the tool delivers nothing, and otherwise one
    record per item of the tool's output with the item's fields, sorted by
    name.  When the binary is not found, the response is the error 500 that
    any other path gets.  With an absolute [__dirname] the response is the
    one to a request that names [DEFAULT_ROOT]. *)
Theorem absent_path_scans_default_root (env : Server.Env)
    (query_path query_recursive : option string) :
  query_path = None ∨ query_path = Some ""%string →
  let recursive := bool_decide (query_recursive = Some "true"%string) in
  let root := Server.DEFAULT_ROOT env in
  let response := (Server.getPhotos env query_path query_recursive).1 in
  Server.getSafePath env query_path = root
  ∧ last (Server.scanArgs recursive (Server.getSafePath env query_path)) = Some root
  ∧ (∀ bin, Server.exiftoolPath env = Server.Ok bin →
       response = Http.PhotosJson root (Http.photos_or_empty response)
       ∧ Http.is_error response = false
       ∧ (toolOutput env recursive root = None → Http.photos_or_empty response = [])
       ∧ (∀ rawData, toolOutput env recursive root = Some rawData →
            Http.photos_or_empty response ≡ₚ
              (λ item,
                 {| Photo.name := Server.FileName item;
                    Photo.path := Server.SourceFile item;
                    Photo.size := Server.FileSize item;
                    Photo.rating := Some (default 0 (Server.Rating item));
                    Photo.label :=
                      match Server.Label item with
                      | Some l => if String.eqb l "" then None else Some l
                      | None => None
                      end |}) <$> rawData
            ∧ Http.photos_or_empty response =
                Server.sortByName env (Server.toPhoto <$> rawData)
            ∧ Photo.name <$> Http.photos_or_empty response
                ≡ₚ Server.FileName <$> rawData
            ∧ Photo.path <$> Http.photos_or_empty response
                ≡ₚ Server.SourceFile <$> rawData
            ∧ (Total (Server.name_le env) → Transitive (Server.name_le env) →
                 StronglySorted
                   (λ a b, Server.localeCompare env (Photo.name a) (Photo.name b) ≤ 0)
                   (Http.photos_or_empty response))
            ∧ (Total (Server.name_le env) →
                 ∀ n, named n (Http.photos_or_empty response)
                      = named n (recordOf <$> rawData))))
  ∧ (∀ message, Server.exiftoolPath env = Server.Throw message →
       response = Http.ErrorJson 500 "Exiftool binary not found"
       ∧ Http.is_error response = true)
  ∧ (Path.isAbsolute (Server.dirname env) = true →
       Server.getPhotos env query_path query_recursive =
       Server.getPhotos env (Some root) query_recursive)
  ∧ (∀ ds, Forall Path.plain ds →
       Server.dirname env = ("/" ++ Path.joinSegments ds)%string →
       root = ("/" ++ Path.joinSegments (take (length ds - 2) ds))%string).
Proof.
  intros Habsent recursive root response.
  pose proof (getSafePath_absent env query_path Habsent) as Hsafe.
  split_and!.
  - done.
  - rewrite Hsafe. apply scanArgs_last.
  - intros bin Hbin.
    destruct (toolOutput env recursive root) as [rawData|] eqn:Hout.
    + assert (response =
        Http.PhotosJson root (Server.sortByName env (Server.toPhoto <$> rawData)))
        as Hres.
      { unfold response.
        rewrite (getPhotos_listed env query_path query_recursive rawData)
          by (by rewrite Hsafe).
        by rewrite Hsafe. }
      rewrite Hres. cbn [Http.photos_or_empty Http.is_error].
      split_and!; [done|done|done|].
      intros ? [= <-].
      destruct (listed_records env rawData)
        as (Hperm & _ & Hnames & Hpaths & Hsorted & Hstable).
      split_and!; done.
    + destruct (getPhotos_failed env query_path query_recursive) as (_ & _ & H);
        [by rewrite Hsafe|].
      unfold response. rewrite (H bin Hbin), Hsafe.
      cbn [Http.photos_or_empty Http.is_error].
      split_and!; done.
  - intros message Hthrow. unfold response, Server.getPhotos.
    by rewrite Hthrow.
  - intros Hdir. unfold Server.getPhotos.
    by rewrite Hsafe, getSafePath_DEFAULT_ROOT.
  - intros ds Hds Hdir. unfold root, Server.DEFAULT_ROOT.
    rewrite Hdir. by apply resolve_two_up.
Qed.

Lemma absent_path_scans_default_root_witness :
  Server.DEFAULT_ROOT Sample.env = "/home/u"%string
  ∧ Server.getSafePath Sample.env (Some ""%string) = Server.DEFAULT_ROOT Sample.env
  ∧ Photo.path <$>
      Http.photos_or_empty (Server.getPhotos Sample.env (Some ""%string) None).1
    ≡ₚ ["/pics/b.png"; "/pics/a.JPG"]%string.
Proof.
  destruct (absent_path_scans_default_root Sample.env (Some ""%string) None)
    as (Hsafe & _ & Hfound & _ & _ & Hup); [by right|].
  split_and!.
  - apply (Hup ["home"; "u"; "PhotoPicks"; "backend"]%string).
    + repeat constructor; done.
    + reflexivity.
  - exact Hsafe.
  - destruct (Hfound "exiftool.exe"%string) as (_ & _ & _ & Hlisted); [reflexivity|].
    destruct (Hlisted Sample.rawItems) as (_ & _ & _ & Hpaths & _); [reflexivity|].
    exact Hpaths.
Defined.

(** C10, as the specification words it, does not hold: on a machine without the tool's
    binary the request without a [path] is answered with the error 500,
    though [DEFAULT_ROOT] is the folder the scan was to run over. *)
Lemma absent_path_error_counterexample :
  Server.getSafePath Demo.noTool None = Server.DEFAULT_ROOT Demo.noTool
  ∧ (Server.getPhotos Demo.noTool None None).1 =
      Http.ErrorJson 500 "Exiftool binary not found"
  ∧ Http.is_error (Server.getPhotos Demo.noTool None None).1 = true
  ∧ Exists (λ l, is_Error l = true) (Server.getPhotos Demo.noTool None None).2.
Proof.
  split_and!; [reflexivity|reflexivity|reflexivity|].
  apply Exists_cons_tl, Exists_cons_hd. reflexivity.
Qed.

(** ** The selected index never goes below 0 *)

Section selection_invariant.
Implicit Types (st : App.State).

Lemma keyCommand_move_nonneg columnsCount n key f prev :
  0 ≤ columnsCount → 0 < n → 0 ≤ prev →
  App.keyCommand columnsCount n key = App.Move f → 0 ≤ f prev.
Proof.
  intros Hc Hn Hprev. unfold App.keyCommand.
  repeat (destruct (String.eqb key _); [intros ?; simplify_eq; lia|]).
  done.
Qed.

Lemma filterEffect_index_nonneg st :
  0 ≤ App.selectedIndex st → 0 ≤ App.selectedIndex (App.filterEffect st).
Proof. intros Hi. simpl. by apply clamp_nonneg. Qed.

Lemma fetchPhotos_index res st :
  App.selectedIndex (App.fetchPhotos res st).1 = App.selectedIndex st.
Proof. destruct res as [|data]; [done|]. simpl. by destruct (Http.is_json data). Qed.

Lemma handleKeyDown_index_nonneg post tagName key st :
  0 ≤ App.columnsCount st →
  0 ≤ App.selectedIndex st →
  0 ≤ App.selectedIndex (App.handleKeyDown post tagName key st).1.
Proof.
  intros Hc Hi. unfold App.handleKeyDown.
  destruct (String.eqb tagName "INPUT"); [done|].
  case_decide as Hlen; [done|].
  pose proof (len_nonneg (App.photos st)).
  destruct (App.keyCommand _ _ key) as [f|rating label|] eqn:Hcmd; [|  |done].
  - simpl. eapply keyCommand_move_nonneg; [..|exact Hcmd]; [done|lia|done].
  - destruct (App.currentPhoto st) as [cp|] eqn:Hcp.
    + rewrite (updateMetadata_index _ _ _ _ cp Hcp).
      pose proof (clamp_nonneg (App.selectedIndex st)
        (JS.len (App.applyFilters
           (App.updateList (Photo.path cp) rating label (App.allPhotos st))
           (App.filterRating st) (App.filterColor st))) Hi).
      lia.
    + by rewrite updateMetadata_no_selection.
Qed.

End selection_invariant.

(** * Further properties of the frontend *)

(** ** Arrow keys *)

Section arrow_keys.
Implicit Types (st : App.State) (key tagName : string).
Implicit Types (post : Http.MetadataBody → Http.FetchResult).

(** What an arrow key does when the handler does not return early. *)
Lemma handleKeyDown_arrow post tagName key st :
  key ∈ ["ArrowRight"; "ArrowLeft"; "ArrowDown"; "ArrowUp"]%string →
  App.handleKeyDown post tagName key st =
  if String.eqb tagName "INPUT" then (st, [])
  else if decide (JS.len (App.photos st) = 0) then (st, [])
  else
    (App.setSelectedIndex
       (λ prev,
          if String.eqb key "ArrowRight" then Z.min (prev + 1) (JS.len (App.photos st) - 1)
          else if String.eqb key "ArrowLeft" then Z.max (prev - 1) 0
          else if String.eqb key "ArrowDown"
          then Z.min (prev + App.columnsCount st) (JS.len (App.photos st) - 1)
          else Z.max (prev - App.columnsCount st) 0) st, []).
Proof.
  intros Hkey. unfold App.handleKeyDown.
  destruct (String.eqb tagName "INPUT"); [done|].
  case_decide; [done|].
  repeat (apply elem_of_cons in Hkey as [->|Hkey]); [done..|].
  by apply elem_of_nil in Hkey.
Qed.

End arrow_keys.

(** X1. An arrow key leaves an index that points into the visible set
    pointing into it, whatever the number of columns (not negative), and
    changes neither the visible set nor the catalog. *)
Theorem arrow_keys_stay_in_range
    (post : Http.MetadataBody → Http.FetchResult)
    (tagName key : string) (st : App.State) :
  key ∈ ["ArrowRight"; "ArrowLeft"; "ArrowDown"; "ArrowUp"]%string →
  0 ≤ App.columnsCount st →
  0 ≤ App.selectedIndex st < JS.len (App.photos st) →
  let result := App.handleKeyDown post tagName key st in
  0 ≤ App.selectedIndex result.1 < JS.len (App.photos result.1)
  ∧ is_Some (App.currentPhoto result.1)
  ∧ App.photos result.1 = App.photos st
  ∧ App.allPhotos result.1 = App.allPhotos st
  ∧ result.2 = [].
Proof.
  intros Hkey Hcols Hi result.
  assert (0 ≤ App.selectedIndex result.1 < JS.len (App.photos result.1)
          ∧ App.photos result.1 = App.photos st
          ∧ App.allPhotos result.1 = App.allPhotos st
          ∧ result.2 = []) as (Hin & Hphotos & Hall & Hlog).
  { unfold result. rewrite handleKeyDown_arrow by done.
    destruct (String.eqb tagName "INPUT"); [done|].
    case_decide; [done|]. simpl. split_and!; try done.
    - repeat (destruct (String.eqb key _)); lia.
    - repeat (destruct (String.eqb key _)); lia. }
  split; [done|]. split; [by apply index_is_Some|done].
Qed.

Lemma arrow_keys_stay_in_range_witness :
  is_Some
    (App.currentPhoto
       (App.handleKeyDown (postTo Sample.env true) "BODY" "ArrowDown"
          (Sample.stateAt 3)).1).
Proof.
  destruct (arrow_keys_stay_in_range (postTo Sample.env true) "BODY" "ArrowDown"
              (Sample.stateAt 3)) as (_ & H & _).
  - apply (bool_decide_unpack _). by vm_compute.
  - simpl. lia.
  - by vm_compute.
  - exact H.
Defined.

(** X2. Away from the ends an arrow key is undone by the opposite one:
    right then left and left then right give the index back, and so do
    down then up and up then down when a whole row fits. *)
Theorem opposite_arrows_cancel
    (post : Http.MetadataBody → Http.FetchResult)
    (tagName : string) (st : App.State) :
  0 ≤ App.columnsCount st →
  0 ≤ App.selectedIndex st < JS.len (App.photos st) →
  let i := App.selectedIndex st in
  let n := JS.len (App.photos st) in
  let press key s := (App.handleKeyDown post tagName key s).1 in
  (i + 1 < n → press "ArrowLeft"%string (press "ArrowRight"%string st) = st)
  ∧ (0 < i → press "ArrowRight"%string (press "ArrowLeft"%string st) = st)
  ∧ (i + App.columnsCount st < n →
       press "ArrowUp"%string (press "ArrowDown"%string st) = st)
  ∧ (App.columnsCount st ≤ i →
       press "ArrowDown"%string (press "ArrowUp"%string st) = st).
Proof.
  intros Hcols Hi i n press. unfold press.
  destruct st as [allPhotos photos idx cols fr fc]. simpl in *.
  unfold App.handleKeyDown. simpl.
  destruct (String.eqb tagName "INPUT"); [done|].
  assert (JS.len photos ≠ 0) as Hne by lia.
  rewrite !(decide_False (P := JS.len photos = 0)) by done. simpl.
  rewrite ?(decide_False (P := JS.len photos = 0)) by done.
  unfold App.setSelectedIndex. simpl.
  split_and!; intros ?; f_equal; unfold i, n in *; lia.
Qed.

Lemma opposite_arrows_cancel_witness :
  (App.handleKeyDown (postTo Sample.env true) "BODY" "ArrowLeft"
     (App.handleKeyDown (postTo Sample.env true) "BODY" "ArrowRight"
        (Sample.stateAt 2)).1).1 = Sample.stateAt 2.
Proof.
  destruct (opposite_arrows_cancel (postTo Sample.env true) "BODY"
              (Sample.stateAt 2)) as (H & _).
  - simpl. lia.
  - by vm_compute.
  - apply H. by vm_compute.
Defined.

(** ** Updates and the visible set *)

Section update_visibility.
Implicit Types (C : list PhotoRecord) (p : PhotoRecord) (cp : string).
Implicit Types (rating : option Z) (label : option (option string)).
Implicit Types (st : App.State).

Lemma ratingOf_spread rating label p :
  ratingOf (App.spread rating label p) = from_option id (ratingOf p) rating.
Proof.
  unfold ratingOf, App.spread. destruct rating as [r|]; simpl; [|done].
  by case_decide.
Qed.

Lemma elem_of_applyFilters C r c p :
  p ∈ App.applyFilters C r c ↔
  p ∈ C ∧ (r > 0 → ratingOf p >= r) ∧ (c ≠ "All"%string → Photo.label p = Some c).
Proof. rewrite applyFilters_one_pass, list_elem_of_filter. tauto. Qed.

Lemma elem_of_updateList cp rating label C p :
  p ∈ C → Photo.path p = cp →
  App.spread rating label p ∈ App.updateList cp rating label C.
Proof.
  intros Hp Hcp. unfold App.updateList. apply list_elem_of_fmap.
  exists p. by rewrite decide_True.
Qed.

Lemma updateList_unique cp rating label C :
  paths_unique C → paths_unique (App.updateList cp rating label C).
Proof. unfold paths_unique. by rewrite updateList_paths. Qed.

Lemma filterEffect_settled st : settled (App.filterEffect st).
Proof. reflexivity. Qed.

Lemma setSelectedIndex_settled f st :
  settled st → settled (App.setSelectedIndex f st).
Proof. done. Qed.

Lemma updateMetadata_settled post rating label st :
  settled st → settled (App.updateMetadata post rating label st).1.
Proof.
  intros Hset. destruct (App.currentPhoto st) as [cp|] eqn:Hcp.
  - by rewrite (updateMetadata_state _ _ _ _ cp Hcp).
  - by rewrite updateMetadata_no_selection.
Qed.

Lemma updateMetadata_paths post rating label st :
  Photo.path <$> App.allPhotos (App.updateMetadata post rating label st).1 =
  Photo.path <$> App.allPhotos st.
Proof.
  destruct (App.currentPhoto st) as [cp|] eqn:Hcp.
  - rewrite (updateMetadata_state _ _ _ _ cp Hcp). simpl. apply updateList_paths.
  - by rewrite updateMetadata_no_selection.
Qed.

Lemma updateMetadata_names post rating label st :
  Photo.name <$> App.allPhotos (App.updateMetadata post rating label st).1 =
  Photo.name <$> App.allPhotos st.
Proof.
  destruct (App.currentPhoto st) as [cp|] eqn:Hcp.
  - rewrite (updateMetadata_state _ _ _ _ cp Hcp). simpl. apply updateList_names.
  - by rewrite updateMetadata_no_selection.
Qed.

End update_visibility.

(** X3. Right after the optimistic update, the updated photo is in the
    visible set exactly when its new values pass the filters: rated [r], it
    is shown iff the rating filter is off or [r] reaches it (and its label
    passes); given a label, iff the colour filter is off or asks for that
    label (and its rating passes). *)
Theorem updated_photo_visibility (C : list PhotoRecord) (p : PhotoRecord)
    (rating : option Z) (label : option (option string))
    (filterRating : Z) (filterColor : string) :
  p ∈ C →
  let p' := App.spread rating label p in
  let visible :=
    App.applyFilters (App.updateList (Photo.path p) rating label C)
      filterRating filterColor in
  (p' ∈ visible ↔
     (filterRating > 0 → from_option id (ratingOf p) rating >= filterRating)
     ∧ (filterColor ≠ "All"%string →
          from_option id (Photo.label p) label = Some filterColor))
  ∧ (∀ r, rating = Some r → label = None →
       (p' ∈ visible ↔
          (filterRating > 0 → r >= filterRating)
          ∧ (filterColor ≠ "All"%string → Photo.label p = Some filterColor)))
  ∧ (∀ l, rating = None → label = Some l →
       (p' ∈ visible ↔
          (filterRating > 0 → ratingOf p >= filterRating)
          ∧ (filterColor ≠ "All"%string → l = Some filterColor))).
Proof.
  intros Hp p' visible.
  assert (p' ∈ visible ↔
     (filterRating > 0 → from_option id (ratingOf p) rating >= filterRating)
     ∧ (filterColor ≠ "All"%string →
          from_option id (Photo.label p) label = Some filterColor)) as Hiff.
  { unfold visible, p'. rewrite elem_of_applyFilters, ratingOf_spread.
    assert (Photo.label (App.spread rating label p) =
            from_option id (Photo.label p) label) as -> by (by destruct label).
    pose proof (elem_of_updateList (Photo.path p) rating label C p Hp eq_refl).
    tauto. }
  split_and!; [exact Hiff| |].
  - intros r -> ->. exact Hiff.
  - intros l -> ->. exact Hiff.
Qed.

Lemma updated_photo_visibility_witness :
  App.spread (Some 4) None Sample.C ∈
    App.applyFilters (App.updateList (Photo.path Sample.C) (Some 4) None Sample.catalog)
      4 "All"
  ∧ App.spread (Some 4) None Sample.C ∉
    App.applyFilters (App.updateList (Photo.path Sample.C) (Some 4) None Sample.catalog)
      5 "All".
Proof.
  assert (Sample.C ∈ Sample.catalog) as Hin.
  { apply (bool_decide_unpack _). by vm_compute. }
  split.
  - destruct (updated_photo_visibility Sample.catalog Sample.C (Some 4) None 4 "All" Hin)
      as (_ & H & _).
    apply (H 4 eq_refl eq_refl). split; [lia|done].
  - destruct (updated_photo_visibility Sample.catalog Sample.C (Some 4) None 5 "All" Hin)
      as (_ & H & _).
    rewrite (H 4 eq_refl eq_refl). intros [H5 _]. lia.
Defined.

(** X4. After an update on a settled state with unique paths, the index is
    never negative and at most one past the end of the new visible set; it
    points at a photo whenever the visible set did not shrink, which is
    always so when no filter is active: then the visible set is the whole
    updated catalog. *)
Theorem selection_after_update
    (post : Http.MetadataBody → Http.FetchResult)
    (rating : option Z) (label : option (option string)) (st : App.State) :
  settled st →
  paths_unique (App.allPhotos st) →
  is_Some (App.currentPhoto st) →
  let st' := (App.updateMetadata post rating label st).1 in
  let n := JS.len (App.photos st) in
  let n' := JS.len (App.photos st') in
  0 ≤ App.selectedIndex st' ≤ n'
  ∧ n - 1 ≤ n'
  ∧ (n ≤ n' → App.selectedIndex st' < n' ∧ is_Some (App.currentPhoto st'))
  ∧ (App.filterRating st ≤ 0 → App.filterColor st = "All"%string →
       App.photos st' = App.allPhotos st' ∧ n' = n).
Proof.
  intros Hset Huniq [cp Hcp] st' n n'.
  pose proof (index_Some _ _ _ Hcp) as Hi. fold n in Hi.
  pose proof (visible_shrinks_by_one (Photo.path cp) rating label
                (App.allPhotos st) (App.filterRating st) (App.filterColor st)
                Huniq) as Hshrink.
  rewrite <-Hset in Hshrink.
  assert (App.photos st' =
    App.applyFilters
      (App.updateList (Photo.path cp) rating label (App.allPhotos st))
      (App.filterRating st) (App.filterColor st)) as Hphotos.
  { unfold st'. by rewrite (updateMetadata_state _ _ _ _ cp Hcp). }
  assert (App.selectedIndex st' =
    Z.min (App.clamp (App.selectedIndex st) n' + 1) (n - 1)) as Hidx.
  { unfold n', st'. rewrite (updateMetadata_index _ _ _ _ cp Hcp).
    by rewrite (updateMetadata_state _ _ _ _ cp Hcp). }
  assert (n - 1 ≤ n') as Hn'.
  { unfold n, n'. rewrite Hphotos. unfold JS.len. lia. }
  assert (0 ≤ App.selectedIndex st' ≤ n') as Hbound.
  { rewrite Hidx. unfold App.clamp. lia. }
  split_and!; try done.
  - lia.
  - lia.
  - intros Hn.
    assert (App.selectedIndex st' < n') as Hlt
      by (rewrite Hidx; unfold App.clamp; clearbody n n' st'; lia).
    split; [done|]. apply index_is_Some. fold n'. lia.
  - intros Hr Hc.
    assert (∀ C, App.applyFilters C (App.filterRating st) (App.filterColor st) = C)
      as Hall.
    { intros C. unfold App.applyFilters.
      rewrite (decide_False (P := App.filterRating st > 0)) by lia.
      rewrite Hc. by rewrite decide_False by (by intros []). }
    assert (App.allPhotos st' =
      App.updateList (Photo.path cp) rating label (App.allPhotos st)) as Hcat.
    { unfold st'. by rewrite (updateMetadata_state _ _ _ _ cp Hcp). }
    split.
    + by rewrite Hphotos, Hall, Hcat.
    + unfold n', n. rewrite Hphotos, Hall, Hset, Hall.
      unfold JS.len. by rewrite updateList_length.
Qed.

Lemma selection_after_update_witness :
  App.selectedIndex
    (App.updateMetadata (postTo Sample.env true) (Some 1) None
       Sample.filteredState).1
  ≤ JS.len (App.photos
      (App.updateMetadata (postTo Sample.env true) (Some 1) None
         Sample.filteredState).1).
Proof.
  destruct (selection_after_update (postTo Sample.env true) (Some 1) None
              Sample.filteredState) as ([_ H] & _).
  - reflexivity.
  - unfold paths_unique. apply (bool_decide_unpack _). by vm_compute.
  - vm_compute. eauto.
  - exact H.
Defined.

(** X5. A key press never adds, removes or reorders the records of the
    catalog (their paths and names stay as they are, so unique paths stay
    unique), and it leaves the visible set the filter of the catalog. *)
Theorem key_press_keeps_catalog
    (post : Http.MetadataBody → Http.FetchResult)
    (tagName key : string) (st : App.State) :
  settled st →
  let st' := (App.handleKeyDown post tagName key st).1 in
  settled st'
  ∧ Photo.path <$> App.allPhotos st' = Photo.path <$> App.allPhotos st
  ∧ Photo.name <$> App.allPhotos st' = Photo.name <$> App.allPhotos st
  ∧ (paths_unique (App.allPhotos st) → paths_unique (App.allPhotos st'))
  ∧ App.filterRating st' = App.filterRating st
  ∧ App.filterColor st' = App.filterColor st.
Proof.
  intros Hset st'. unfold st', App.handleKeyDown.
  destruct (String.eqb tagName "INPUT"); [done|].
  case_decide; [done|].
  destruct (App.keyCommand _ _ key) as [f|rating label|]; [done| |done].
  pose proof (updateMetadata_paths post rating label st) as Hpaths.
  split_and!.
  - by apply updateMetadata_settled.
  - done.
  - apply updateMetadata_names.
  - unfold paths_unique. by rewrite Hpaths.
  - destruct (App.currentPhoto st) as [cp|] eqn:Hcp.
    + by rewrite (updateMetadata_state _ _ _ _ cp Hcp).
    + by rewrite updateMetadata_no_selection.
  - destruct (App.currentPhoto st) as [cp|] eqn:Hcp.
    + by rewrite (updateMetadata_state _ _ _ _ cp Hcp).
    + by rewrite updateMetadata_no_selection.
Qed.

Lemma key_press_keeps_catalog_witness :
  Photo.path <$> App.allPhotos
    (App.handleKeyDown (postTo Sample.env true) "BODY" "5" (Sample.stateAt 0)).1 =
  Photo.path <$> Sample.five.
Proof.
  destruct (key_press_keeps_catalog (postTo Sample.env true) "BODY" "5"
              (Sample.stateAt 0)) as (_ & H & _); [reflexivity|].
  exact H.
Defined.

(** ** What a scan puts in the catalog *)

(** X6. The records a listing scan leaves in the catalog all carry a
    rating and never an empty label; their paths are the tool's
    [SourceFile]s, so they are unique when the tool lists no file twice;
    their ratings are not negative when the tool's are not.  The scan
    itself touches neither the visible set nor the index. *)
Theorem scanned_catalog_wellformed (env : Server.Env) (path : string)
    (recursive : bool) (st : App.State) (rawData : list Server.RawItem) :
  toolOutput env recursive (Server.getSafePath env (Some path)) = Some rawData →
  let st' := (scan env true path recursive st).1 in
  Forall (λ p, is_Some (Photo.rating p) ∧ Photo.label p ≠ Some ""%string)
    (App.allPhotos st')
  ∧ Photo.path <$> App.allPhotos st' ≡ₚ Server.SourceFile <$> rawData
  ∧ (NoDup (Server.SourceFile <$> rawData) → paths_unique (App.allPhotos st'))
  ∧ (Forall (λ item, 0 ≤ default 0 (Server.Rating item)) rawData →
       ratings_nonneg (App.allPhotos st'))
  ∧ App.photos st' = App.photos st
  ∧ App.selectedIndex st' = App.selectedIndex st.
Proof.
  intros Hout st'.
  assert (App.allPhotos st' = Server.sortByName env (Server.toPhoto <$> rawData)
          ∧ App.photos st' = App.photos st
          ∧ App.selectedIndex st' = App.selectedIndex st) as (Hall & Hphotos & Hidx).
  { unfold st'. rewrite scan_reached.
    rewrite (getPhotos_listed env (Some path) _ rawData)
      by (by rewrite recursive_flag).
    done. }
  assert (App.allPhotos st' ≡ₚ Server.toPhoto <$> rawData) as Hperm.
  { rewrite Hall. apply sortByName_Permutation. }
  assert (Photo.path <$> App.allPhotos st' ≡ₚ Server.SourceFile <$> rawData)
    as Hpaths.
  { rewrite Hperm, <-list_fmap_compose. done. }
  split_and!; try done.
  - rewrite Hperm. apply Forall_fmap, Forall_forall. intros item _. simpl.
    split; [by eexists|].
    destruct (Server.Label item) as [[|a l]|]; done.
  - intros Hnd. unfold paths_unique. by rewrite Hpaths.
  - intros Hnn. unfold ratings_nonneg. rewrite Hperm.
    apply Forall_fmap. eapply Forall_impl; [exact Hnn|].
    intros item Hitem. unfold ratingOf, JS.num_or. simpl in Hitem |- *.
    destruct (Server.Rating item) as [r|]; simpl in *; repeat case_decide; lia.
Qed.

Lemma scanned_catalog_wellformed_witness :
  paths_unique (App.allPhotos (scan Sample.env true "/pics" false App.initial).1).
Proof.
  destruct (scanned_catalog_wellformed Sample.env "/pics" false App.initial
              Sample.rawItems) as (_ & _ & H & _); [reflexivity|].
  apply H. apply (bool_decide_unpack _). by vm_compute.
Defined.

(** * Further properties of the backend *)

(** ** The keywords written with a label *)

Section keywords.
Implicit Types (meta : Server.Tags) (label : option string) (k : string).

Lemma newKeywords_unfold meta label :
  Server.newKeywords meta label =
  filter (λ k, k ∉ Server.colorLabels) (keywordsOf meta)
    ++ (if JS.truthy label then [default ""%string label] else []).
Proof.
  unfold Server.newKeywords, keywordsOf.
  destruct (JS.truthy label); [done|]. by rewrite app_nil_r.
Qed.

Lemma filter_colours_tail label :
  colourOrNone label →
  filter (λ k, k ∉ Server.colorLabels)
    (if JS.truthy label then [default ""%string label] else []) = [].
Proof.
  intros [Hf|(l & -> & Hl)]; [by rewrite Hf|].
  destruct (JS.truthy (Some l)); [|done]. simpl.
  by rewrite filter_cons_False by (by intros []).
Qed.

End keywords.

(** X7. The keywords written with a label hold no known colour label
    except the new label itself; every keyword of the file that is not a
    colour label is kept; nothing else is added; and a label that is
    written stands last. *)
Theorem keywords_hold_one_colour (meta : Server.Tags) (label : option string) :
  let keywords := Server.newKeywords meta label in
  (∀ k, k ∈ keywords → k ∈ Server.colorLabels → label = Some k)
  ∧ (∀ k, k ∈ keywordsOf meta → k ∉ Server.colorLabels → k ∈ keywords)
  ∧ (∀ k, k ∈ keywords → k ∈ keywordsOf meta ∨ label = Some k)
  ∧ (JS.truthy label = true → last keywords = label)
  ∧ (JS.truthy label = false → ∀ k, k ∈ keywords → k ∉ Server.colorLabels).
Proof.
  intros keywords. unfold keywords. rewrite newKeywords_unfold.
  split_and!.
  - intros k [Hk|Hk]%elem_of_app Hcol.
    + by apply list_elem_of_filter in Hk as [? _].
    + destruct label as [l|]; [|by apply elem_of_nil in Hk].
      destruct (JS.truthy (Some l)); [|by apply elem_of_nil in Hk].
      by apply list_elem_of_singleton in Hk as ->.
  - intros k Hk Hcol. apply elem_of_app. left. by apply list_elem_of_filter.
  - intros k [Hk|Hk]%elem_of_app.
    + left. by apply list_elem_of_filter in Hk as [_ ?].
    + right. destruct label as [l|]; [|by apply elem_of_nil in Hk].
      destruct (JS.truthy (Some l)); [|by apply elem_of_nil in Hk].
      by apply list_elem_of_singleton in Hk as ->.
  - intros Ht. destruct label as [l|]; [|done]. rewrite Ht. simpl.
    by rewrite last_snoc.
  - intros ->. rewrite app_nil_r. intros k Hk.
    by apply list_elem_of_filter in Hk as [? _].
Qed.

(** X8. Writing a known colour (or clearing the label) leaves no trace in
    what a later label writes: on a file whose keywords are the ones such
    a write produced, any label gives the keywords it gives on the
    original file.  So writing the same colour twice changes nothing. *)
Theorem relabel_forgets_previous_colour (meta meta' : Server.Tags)
    (label label' : option string) :
  colourOrNone label →
  keywordsOf meta' = Server.newKeywords meta label →
  Server.newKeywords meta' label' = Server.newKeywords meta label'
  ∧ Server.newKeywords meta' label = keywordsOf meta'.
Proof.
  intros Hcol Hread.
  assert (filter (λ k, k ∉ Server.colorLabels) (keywordsOf meta') =
          filter (λ k, k ∉ Server.colorLabels) (keywordsOf meta)) as Hkept.
  { rewrite Hread, newKeywords_unfold, filter_app, filter_colours_tail by done.
    rewrite app_nil_r, list_filter_filter. apply list_filter_iff. tauto. }
  split.
  - by rewrite !newKeywords_unfold, Hkept.
  - by rewrite Hread, !newKeywords_unfold, Hkept.
Qed.

Lemma relabel_forgets_previous_colour_witness :
  Server.newKeywords
    (Server.mkTags None None (Some (Server.KwArray ["beach"; "Red"]%string)))
    (Some "Green"%string) = ["beach"; "Green"]%string.
Proof.
  destruct (relabel_forgets_previous_colour
              (Server.mkTags None None (Some (Server.KwString "beach")))
              (Server.mkTags None None (Some (Server.KwArray ["beach"; "Red"]%string)))
              (Some "Red"%string) (Some "Green"%string)) as [-> _].
  - right. exists "Red"%string. split; [done|].
    apply (bool_decide_unpack _). by vm_compute.
  - reflexivity.
  - reflexivity.
Defined.

(** ** What POST /api/metadata writes *)

(** X9. A write the metadata handler issues goes to the file of the
    request and holds the three rating tags exactly when the request has a
    rating and the five label and keyword tags exactly when it has a label;
    a request with neither writes no tag and is still answered with
    success.  The three keyword tags agree. *)
Theorem metadata_write_touches_given_fields (env : Server.Env)
    (body : Http.MetadataBody) (file : string)
    (tags : gmap string Server.TagVal) :
  Server.written (Server.postMetadata env body) = Some (file, tags) →
  Http.file body = Some file
  ∧ Server.response (Server.postMetadata env body) = Http.SuccessJson
  ∧ dom tags =
      match Http.rating body with Some _ => ratingTagNames | None => ∅ end
      ∪ match Http.label body with Some _ => labelTagNames | None => ∅ end
  ∧ (∀ label, Http.label body = Some label →
       tags !! "Label"%string = Some (Server.labelVal label)
       ∧ tags !! "XMP:Label"%string = Some (Server.labelVal label)
       ∧ ∃ keywords,
           tags !! "Keywords"%string = Some (Server.TArr keywords)
           ∧ tags !! "Subject"%string = Some (Server.TArr keywords)
           ∧ tags !! "XPKeywords"%string =
               Some (Server.TStr (String.concat ";" keywords))).
Proof.
  unfold Server.postMetadata.
  destruct (Http.file body) as [f|]; [|done].
  destruct (JS.truthy (Some f)); [|done]. cbn [negb from_option id].
  destruct (Http.rating body) as [r|], (Http.label body) as [label|].
  - destruct (Server.exiftool_read env f) as [meta|]; [|done].
    destruct (Server.exiftool_write env f _ _); [|done].
    cbn [Server.written Server.response]. intros [= <- <-].
    split; [done|]. split; [done|]. split.
    + unfold Server.labelTags, Server.ratingTags, ratingTagNames, labelTagNames.
      rewrite !dom_insert_L, dom_empty_L. set_solver.
    + intros ? [= <-]. unfold Server.labelTags.
      split_and!; [by simplify_map_eq..|]. eexists. by simplify_map_eq.
  - destruct (Server.exiftool_write env f _ _); [|done].
    cbn [Server.written Server.response]. intros [= <- <-].
    split; [done|]. split; [done|]. split; [|done].
    unfold Server.ratingTags, ratingTagNames.
    rewrite !dom_insert_L, dom_empty_L. set_solver.
  - destruct (Server.exiftool_read env f) as [meta|]; [|done].
    destruct (Server.exiftool_write env f _ _); [|done].
    cbn [Server.written Server.response]. intros [= <- <-].
    split; [done|]. split; [done|]. split.
    + unfold Server.labelTags, labelTagNames.
      rewrite !dom_insert_L, dom_empty_L. set_solver.
    + intros ? [= <-]. unfold Server.labelTags.
      split_and!; [by simplify_map_eq..|]. eexists. by simplify_map_eq.
  - destruct (Server.exiftool_write env f _ _); [|done].
    cbn [Server.written Server.response]. intros [= <- <-].
    split; [done|]. split; [done|]. split; [|done].
    rewrite dom_empty_L. set_solver.
Qed.

Lemma metadata_write_touches_given_fields_witness :
  ∃ tags,
    Server.written
      (Server.postMetadata Sample.env
         (Http.mkMetadataBody (Some "/pics/a.jpg"%string) None (Some (Some "Red"%string))))
    = Some ("/pics/a.jpg"%string, tags)
    ∧ dom tags = labelTagNames.
Proof.
  pose (body := Http.mkMetadataBody (Some "/pics/a.jpg"%string) None
                  (Some (Some "Red"%string))).
  destruct (Server.written (Server.postMetadata Sample.env body))
    as [[file tags]|] eqn:Hw; [|by vm_compute in Hw].
  destruct (metadata_write_touches_given_fields Sample.env body file tags Hw)
    as (Hfile & _ & Hdom & _).
  simpl in Hfile. injection Hfile as <-.
  exists tags. split; [done|]. rewrite Hdom. simpl. set_solver.
Defined.

(** ** getSafePath and GET /api/folders *)

Section safe_paths.
Implicit Types (s seg rest name : string) (ds : list string).

(** With an absolute current directory the loop of [path.resolve] always
    ends on an absolute path. *)
Lemma gather_absolute cwd (paths : list string) resolvedPath :
  Path.isAbsolute cwd = true →
  ∃ gathered, Path.gather (paths ++ [cwd]) resolvedPath = (gathered, true).
Proof.
  intros Habs. revert resolvedPath.
  induction paths as [|p paths IH]; intros resolvedPath; simpl.
  - destruct cwd as [|a cwd]; [done|]. simpl in *. rewrite Habs. eauto.
  - destruct (String.eqb p ""); [apply IH|].
    destruct (Path.isAbsolute p); [eauto|apply IH].
Qed.

Lemma resolve_normal_form cwd (args : list string) :
  Path.isAbsolute cwd = true →
  ∃ ds, Forall Path.plain ds
    ∧ Path.resolve cwd args = ("/" ++ Path.joinSegments ds)%string.
Proof.
  intros Habs. unfold Path.resolve. rewrite reverse_cons.
  destruct (gather_absolute cwd (reverse args) "" Habs) as [gathered ->].
  eexists. split; [|reflexivity].
  apply normalize_all_plain; [done|apply split_slashFree].
Qed.

Lemma getSafePath_normal_form env reqPath :
  Path.isAbsolute (Server.cwd env) = true →
  ∃ ds, Forall Path.plain ds
    ∧ Server.getSafePath env reqPath = ("/" ++ Path.joinSegments ds)%string.
Proof.
  intros Habs. unfold Server.getSafePath, Server.DEFAULT_ROOT.
  destruct (negb (JS.truthy reqPath)); by apply resolve_normal_form.
Qed.

Lemma getSafePath_resolved env ds :
  Forall Path.plain ds →
  Server.getSafePath env (Some ("/" ++ Path.joinSegments ds)%string) =
  ("/" ++ Path.joinSegments ds)%string.
Proof.
  intros Hds. unfold Server.getSafePath.
  rewrite string_app_cons. simpl. by apply resolve_resolved.
Qed.

(** [split] goes through a slash. *)
Lemma split_app s rest :
  Path.split (s ++ String Path.slash rest) = Path.split s ++ Path.split rest.
Proof.
  induction s as [|a s IH].
  - done.
  - rewrite string_app_cons. simpl.
    destruct (Ascii.eqb a Path.slash); [by rewrite IH|].
    rewrite IH.
    destruct (Path.split s) as [|seg segs] eqn:Hs; [by apply split_nonempty in Hs|].
    done.
Qed.

Lemma split_single seg : Path.slashFree seg = true → Path.split seg = [seg].
Proof.
  induction seg as [|a seg IH]; [done|]. simpl.
  intros [Ha Hseg]%andb_prop.
  destruct (Ascii.eqb a Path.slash); [done|]. by rewrite IH.
Qed.

Lemma joinSegments_snoc ds name :
  ds ≠ [] →
  Path.joinSegments (ds ++ [name]) =
  (Path.joinSegments ds ++ String Path.slash name)%string.
Proof.
  unfold Path.joinSegments.
  induction ds as [|d ds IH]; [done|]. intros _.
  destruct ds as [|d' ds]; [done|].
  change (String.concat "/" ((d :: d' :: ds) ++ [name]))
    with (d ++ String Path.slash (String.concat "/" ((d' :: ds) ++ [name])))%string.
  rewrite IH by done.
  change (String.concat "/" (d :: d' :: ds))
    with (d ++ String Path.slash (String.concat "/" (d' :: ds)))%string.
  by rewrite string_app_assoc, string_app_cons.
Qed.

Lemma string_app_not_empty s rest a : (s ++ String a rest)%string ≠ ""%string.
Proof. by destruct s. Qed.

Lemma joinSegments_not_empty ds :
  Forall Path.plain ds → ds ≠ [] → Path.joinSegments ds ≠ ""%string.
Proof.
  intros Hds Hne. destruct ds as [|d ds]; [done|].
  apply Forall_cons in Hds as [(_ & Hd & _) _].
  unfold Path.joinSegments. destruct ds as [|d' ds]; [done|].
  change (String.concat "/" (d :: d' :: ds))
    with (d ++ String Path.slash (String.concat "/" (d' :: ds)))%string.
  apply string_app_not_empty.
Qed.

(** Joining a name to a resolved folder appends it as a segment. *)
Lemma join_resolved ds name :
  Forall Path.plain ds → Path.plain name →
  Path.join ("/" ++ Path.joinSegments ds)%string name =
  ("/" ++ Path.joinSegments (ds ++ [name]))%string.
Proof.
  intros Hds Hname. pose proof Hname as (Hfree & Hne & _).
  unfold Path.join.
  rewrite string_app_cons, string_app_nil_l.
  change (String.eqb (String "/" (Path.joinSegments ds)) "") with false.
  rewrite (proj2 (String.eqb_neq name "")) by done. cbv iota.
  rewrite string_app_cons.
  change (String.eqb (String "/" (Path.joinSegments ds ++ "/" ++ name)) "")
    with false.
  cbv iota. cbv zeta.
  change (Path.isAbsolute (String "/" (Path.joinSegments ds ++ "/" ++ name)))
    with true.
  change ("/" ++ name)%string with (String Path.slash name).
  assert (Path.split (String "/" (Path.joinSegments ds ++ String Path.slash name)) =
          ""%string :: Path.split (Path.joinSegments ds) ++ [name]) as Hsplit.
  { change (Path.split (String "/" (Path.joinSegments ds ++ String Path.slash name)))
      with (""%string :: Path.split (Path.joinSegments ds ++ String Path.slash name)).
    by rewrite split_app, (split_single name). }
  assert (Path.normalizeSegments false []
            (Path.split (String "/" (Path.joinSegments ds ++ String Path.slash name)))
          = ds ++ [name]) as Hnorm.
  { change (Path.split (String "/" (Path.joinSegments ds ++ String Path.slash name)))
      with (""%string :: Path.split (Path.joinSegments ds ++ String Path.slash name)).
    change (Path.normalizeSegments false [] (""%string :: ?l))
      with (Path.normalizeSegments false [] l).
    rewrite (normalize_join [] ds name) by done.
    rewrite app_nil_r, (split_single name) by done.
    rewrite normalize_plain by done. simpl.
    by rewrite reverse_cons, reverse_involutive. }
  change (negb true) with false. rewrite Hnorm, Hsplit.
  rewrite bool_decide_eq_false_2; last first.
  { change (""%string :: Path.split (Path.joinSegments ds) ++ [name])
      with ((""%string :: Path.split (Path.joinSegments ds)) ++ [name]).
    rewrite last_snoc. by intros [= ->]. }
  rewrite (proj2 (String.eqb_neq (Path.joinSegments (ds ++ [name])) "")); [done|].
  apply joinSegments_not_empty.
  - apply Forall_app. split; [done|]. by constructor.
  - by destruct ds.
Qed.

Lemma basename_resolved ds name :
  Forall Path.plain ds → Path.plain name →
  Path.basename ("/" ++ Path.joinSegments (ds ++ [name]))%string = name.
Proof.
  intros Hds Hname. pose proof Hname as (Hfree & Hne & _).
  unfold Path.basename. rewrite string_app_cons, string_app_nil_l.
  change (Path.split (String "/" ?s)) with (""%string :: Path.split s).
  destruct ds as [|d ds].
  - simpl app. unfold Path.joinSegments. simpl String.concat.
    rewrite (split_single name) by done.
    rewrite filter_cons_False by (by intros []).
    by rewrite filter_cons_True by done.
  - rewrite joinSegments_snoc by done.
    rewrite split_app, (split_single name) by done.
    rewrite filter_cons_False by (by intros []).
    rewrite filter_app, filter_cons_True by done.
    by rewrite filter_nil, last_snoc.
Qed.

End safe_paths.

(** X10. With an absolute current directory, [getSafePath] always gives an
    absolute path in normal form (a slash and segments that are not empty,
    ["."] or [".."]), and gives such a path back unchanged. *)
Theorem getSafePath_absolute_normalized (env : Server.Env)
    (reqPath : option string) :
  Path.isAbsolute (Server.cwd env) = true →
  let folderPath := Server.getSafePath env reqPath in
  (∃ ds, Forall Path.plain ds
     ∧ folderPath = ("/" ++ Path.joinSegments ds)%string)
  ∧ Path.isAbsolute folderPath = true
  ∧ Server.getSafePath env (Some folderPath) = folderPath.
Proof.
  intros Habs folderPath.
  destruct (getSafePath_normal_form env reqPath Habs) as (ds & Hds & Hpath).
  fold folderPath in Hpath. split_and!.
  - by exists ds.
  - by rewrite Hpath.
  - rewrite Hpath. by apply getSafePath_resolved.
Qed.

Lemma getSafePath_absolute_normalized_witness :
  Server.getSafePath Sample.env (Some "pics/../raw/./x/"%string) =
  "/home/u/PhotoPicks/backend/raw/x"%string
  ∧ Server.getSafePath Sample.env
      (Some (Server.getSafePath Sample.env (Some "pics/../raw/./x/"%string))) =
    Server.getSafePath Sample.env (Some "pics/../raw/./x/"%string).
Proof.
  destruct (getSafePath_absolute_normalized Sample.env
              (Some "pics/../raw/./x/"%string)) as (_ & _ & H); [reflexivity|].
  split; [reflexivity|exact H].
Defined.

(** X11. GET /api/folders lists, in the order of the directory, exactly
    the entries that are directories and whose name does not start with a
    dot.  With an absolute current directory and entry names that are
    plain segments, each listed path ends in the folder's name, and sent
    back as the [path] parameter it is resolved to itself. *)
Theorem folders_listing (env : Server.Env)
    (readdir : string → Server.Outcome (list Listing.Dirent))
    (query_path : option string) (items : list Listing.Dirent) :
  Path.isAbsolute (Server.cwd env) = true →
  readdir (Server.getSafePath env query_path) = Server.Ok items →
  Forall (λ item, Path.plain (Listing.name item)) items →
  ∃ folders,
    Listing.getFolders env readdir query_path =
      (Listing.FoldersJson (Server.getSafePath env query_path) folders, [])
    ∧ Listing.folderName <$> folders =
        Listing.name <$> filter Listing.listed items
    ∧ (∀ name, name ∈ Listing.folderName <$> folders ↔
         Listing.mkDirent name true ∈ items ∧ Tree.startsWith name "." = false)
    ∧ (∀ f, f ∈ folders →
         Path.basename (Listing.folderPath f) = Listing.folderName f
         ∧ Server.getSafePath env (Some (Listing.folderPath f)) =
             Listing.folderPath f).
Proof.
  intros Habs Hread Hplain.
  destruct (getSafePath_normal_form env query_path Habs) as (ds & Hds & Hpath).
  unfold Listing.getFolders. rewrite Hread.
  eexists. split; [reflexivity|]. split_and!.
  - rewrite <-list_fmap_compose. done.
  - intros name. rewrite <-list_fmap_compose, list_elem_of_fmap. split.
    + intros ([n d] & -> & [[Hd Hdot] Hin]%list_elem_of_filter).
      simpl in *. by subst d.
    + intros [Hin Hdot]. exists (Listing.mkDirent name true).
      split; [done|]. by apply list_elem_of_filter.
  - intros f (item & -> & [_ Hin]%list_elem_of_filter)%list_elem_of_fmap.
    simpl. rewrite Forall_forall in Hplain. specialize (Hplain item Hin).
    rewrite Hpath, join_resolved by done. split.
    + by apply basename_resolved.
    + apply getSafePath_resolved, Forall_app. split; [done|]. by constructor.
Qed.

Lemma folders_listing_witness :
  ∃ folders,
    Listing.getFolders Sample.env Demo.readdir (Some "/pics/"%string) =
      (Listing.FoldersJson "/pics" folders, [])
    ∧ Listing.folderName <$> folders = ["2024"; "raw"]%string.
Proof.
  destruct (folders_listing Sample.env Demo.readdir (Some "/pics/"%string)
              Demo.entries) as (folders & Hres & Hnames & _).
  - reflexivity.
  - reflexivity.
  - repeat constructor; done.
  - exists folders. split; [exact Hres|exact Hnames].
Defined.

(** * The thumbnail panel *)

Section panel.
Implicit Types (st : Panel.State) (w : Z).

Lemma columns_bounds w :
  250 ≤ w ≤ 800 → 2 ≤ Z.max 2 ((w - 16) / 140) ≤ 5.
Proof.
  intros Hw. split; [lia|].
  assert ((w - 16) / 140 ≤ 784 / 140) by (apply Z.div_le_mono; lia).
  change (784 / 140) with 5 in *. lia.
Qed.

Lemma columns_monotone w1 w2 :
  w1 ≤ w2 → Z.max 2 ((w1 - 16) / 140) ≤ Z.max 2 ((w2 - 16) / 140).
Proof.
  intros Hw.
  assert ((w1 - 16) / 140 ≤ (w2 - 16) / 140) by (apply Z.div_le_mono; lia).
  lia.
Qed.

End panel.

(** X12. While the panel is resized, a mouse move leaves a width from 250
    to 800 and between 2 and 5 columns, the number the effect on the width
    computes as well; the width is the distance to the window's right edge
    when that lies from 250 to 800; a pointer further right never gives
    more columns. *)
Theorem resize_keeps_bounds (innerWidth clientX : Z) (st : Panel.State) :
  Panel.isResizing st = true →
  let st' := Panel.handleMouseMove innerWidth clientX st in
  250 ≤ Panel.thumbnailWidth st' ≤ 800
  ∧ 2 ≤ Panel.columnsCount st' ≤ 5
  ∧ Panel.widthEffect st' = st'
  ∧ (250 ≤ innerWidth - clientX ≤ 800 →
       Panel.thumbnailWidth st' = innerWidth - clientX)
  ∧ (∀ clientX', clientX ≤ clientX' →
       Panel.columnsCount (Panel.handleMouseMove innerWidth clientX' st)
       ≤ Panel.columnsCount st').
Proof.
  intros Hres st'. unfold st', Panel.handleMouseMove. rewrite Hres. simpl.
  assert (250 ≤ Z.max 250 (Z.min 800 (innerWidth - clientX)) ≤ 800) as Hw by lia.
  split; [done|]. split; [by apply columns_bounds|].
  split; [done|]. split; [lia|].
  intros clientX' Hx. apply columns_monotone. lia.
Qed.

Lemma resize_keeps_bounds_witness :
  Panel.columnsCount (Panel.handleMouseMove 1920 0 Demo.resizing) ≤ 5.
Proof.
  destruct (resize_keeps_bounds 1920 0 Demo.resizing) as (_ & [_ H] & _);
    [reflexivity|exact H].
Defined.

(** * The folder tree *)

Section folder_tree.
Implicit Types (s seg rest rootPath : string) (ps : list string).

Lemma tree_split_nonempty s : Tree.split s ≠ [].
Proof.
  induction s as [|a s IH]; simpl; [done|].
  destruct (Tree.isSeparator a); [done|]. by destruct (Tree.split s).
Qed.

Lemma tree_split_separatorFree s :
  Forall (λ seg, Tree.separatorFree seg = true) (Tree.split s).
Proof.
  induction s as [|a s IH]; simpl.
  - by repeat constructor.
  - destruct (Tree.isSeparator a) eqn:Ha; [by constructor|].
    destruct (Tree.split s) as [|seg segs] eqn:Hs;
      [by apply tree_split_nonempty in Hs|].
    apply Forall_cons in IH as [Hseg Hsegs].
    constructor; [|done]. simpl. by rewrite Ha, Hseg.
Qed.

Lemma segments_proper rootPath : Forall Tree.proper (Tree.segments rootPath).
Proof.
  unfold Tree.segments. apply Forall_forall.
  intros seg [Hne Hin]%list_elem_of_filter. split; [|done].
  pose proof (tree_split_separatorFree rootPath) as Hfree.
  rewrite Forall_forall in Hfree. by apply Hfree.
Qed.

Lemma tree_split_app s a rest :
  Tree.isSeparator a = true →
  Tree.split (s ++ String a rest) = Tree.split s ++ Tree.split rest.
Proof.
  intros Ha. induction s as [|b s IH].
  - rewrite string_app_nil_l. simpl. by rewrite Ha.
  - rewrite string_app_cons. simpl.
    destruct (Tree.isSeparator b); [by rewrite IH|].
    rewrite IH.
    destruct (Tree.split s) as [|seg segs] eqn:Hs;
      [by apply tree_split_nonempty in Hs|].
    done.
Qed.

Lemma tree_split_single seg :
  Tree.separatorFree seg = true → Tree.split seg = [seg].
Proof.
  induction seg as [|a seg IH]; [done|]. simpl.
  intros [Ha Hseg]%andb_prop.
  destruct (Tree.isSeparator a); [done|]. by rewrite IH.
Qed.

Lemma segments_app s a rest :
  Tree.isSeparator a = true →
  Tree.segments (s ++ String a rest) = Tree.segments s ++ Tree.segments rest.
Proof.
  intros Ha. unfold Tree.segments. by rewrite tree_split_app, filter_app.
Qed.

Lemma segments_single seg : Tree.proper seg → Tree.segments seg = [seg].
Proof.
  intros [Hfree Hne]. unfold Tree.segments.
  rewrite tree_split_single by done. by rewrite filter_cons_True.
Qed.

(** Joining proper segments with backslashes and splitting again gives the
    segments back. *)
Lemma segments_concat ps :
  Forall Tree.proper ps → Tree.segments (String.concat "\" ps) = ps.
Proof.
  induction 1 as [|p ps Hp Hps IH]; [done|].
  destruct ps as [|p' ps]; [by apply segments_single|].
  change (String.concat "\" (p :: p' :: ps))
    with (p ++ String Tree.backslash (String.concat "\" (p' :: ps)))%string.
  rewrite segments_app by done.
  by rewrite segments_single, IH.
Qed.

Lemma segments_trailing s :
  Tree.segments (s ++ "\") = Tree.segments s.
Proof.
  change (s ++ "\")%string with (s ++ String Tree.backslash "")%string.
  rewrite segments_app by done. apply app_nil_r.
Qed.

Lemma startsWith_refl s : Tree.startsWith s s = true.
Proof.
  induction s as [|a s IH]; [done|]. simpl.
  by rewrite Ascii.eqb_refl, IH.
Qed.

End folder_tree.

(** X13. [goUp] takes the last segment off a root of two or more segments
    (whatever separators it was written with) and leaves a root of one
    segment or none as it is; so the root never loses its last segment. *)
Theorem goUp_drops_last_segment (rootPath : string) :
  let parts := Tree.segments rootPath in
  ((1 < length parts)%nat →
     Tree.segments (Tree.goUp rootPath) = take (length parts - 1) parts)
  ∧ ((length parts ≤ 1)%nat → Tree.goUp rootPath = rootPath)
  ∧ (parts ≠ [] → Tree.segments (Tree.goUp rootPath) ≠ [])
  ∧ (length (Tree.segments (Tree.goUp rootPath)) ≤ length parts)%nat.
Proof.
  intros parts.
  assert ((1 < length parts)%nat →
     Tree.segments (Tree.goUp rootPath) = take (length parts - 1) parts) as Hup.
  { intros Hlen. unfold Tree.goUp. fold parts. rewrite decide_True by done.
    assert (Forall Tree.proper (take (length parts - 1) parts)) as Hproper.
    { apply Forall_take, segments_proper. }
    destruct (Tree.endsWith _ _).
    - by rewrite segments_trailing, segments_concat.
    - by rewrite segments_concat. }
  assert ((length parts ≤ 1)%nat → Tree.goUp rootPath = rootPath) as Hstay.
  { intros Hlen. unfold Tree.goUp. fold parts. by rewrite decide_False by lia. }
  split_and!; [done|done| |].
  - intros Hne. destruct (decide (1 < length parts)%nat) as [Hlen|Hlen].
    + rewrite Hup by done. intros Hnil%(f_equal length).
      rewrite length_take in Hnil. simpl in Hnil. lia.
    + by rewrite Hstay by lia.
  - destruct (decide (1 < length parts)%nat) as [Hlen|Hlen].
    + rewrite Hup by done. rewrite length_take. lia.
    + by rewrite Hstay by lia.
Qed.

(** X14. After the effect that keeps the tree's root in step with the
    current path, the normalized current path starts with the normalized
    root; the root is the old one when that was already so, and the
    current path otherwise; and running the effect again changes
    nothing. *)
Theorem root_follows_current_path (toLowerCase : string → string)
    (currentPath rootPath : string) :
  currentPath ≠ ""%string →
  let root' := Tree.syncRoot toLowerCase currentPath rootPath in
  Tree.startsWith (Tree.normalize toLowerCase currentPath)
    (Tree.normalize toLowerCase root') = true
  ∧ (Tree.startsWith (Tree.normalize toLowerCase currentPath)
       (Tree.normalize toLowerCase rootPath) = true → root' = rootPath)
  ∧ (Tree.startsWith (Tree.normalize toLowerCase currentPath)
       (Tree.normalize toLowerCase rootPath) = false → root' = currentPath)
  ∧ Tree.syncRoot toLowerCase currentPath root' = root'.
Proof.
  intros Hne%String.eqb_neq root'. unfold root', Tree.syncRoot. rewrite Hne.
  destruct (Tree.startsWith _ (Tree.normalize toLowerCase rootPath)) eqn:Hin; simpl.
  - rewrite Hin. done.
  - rewrite !startsWith_refl. done.
Qed.

Lemma root_follows_current_path_witness :
  Tree.syncRoot Demo.toLowerCase "D:\Photos" "G:\Code Files" = "D:\Photos"%string.
Proof.
  destruct (root_follows_current_path Demo.toLowerCase "D:\Photos" "G:\Code Files")
    as (_ & _ & H & _); [done|].
  apply H. reflexivity.
Defined.

(** * The first App component: the metadata cache *)

Section metadata_cache.
Implicit Types (st : Legacy.State) (file cp : PhotoRecord).
Implicit Types (rating : option Z) (label : option (option string)).

Lemma legacy_updateMetadata_state post rating label st cp :
  JS.index (Legacy.photos st) (Legacy.selectedIndex st) = Some cp →
  (Legacy.updateMetadata post rating label st).1 =
  {| Legacy.photos := Legacy.photos st;
     Legacy.selectedIndex := Legacy.selectedIndex st;
     Legacy.metadataCache :=
       <[Photo.path cp :=
           Legacy.merge (Legacy.metadataCache st !! Photo.path cp) rating label]>
         (Legacy.metadataCache st) |}.
Proof.
  intros Hcp. unfold Legacy.updateMetadata. rewrite Hcp. by destruct (post _).
Qed.

Lemma fetchMetadata_cached get file rendered now :
  is_Some (Legacy.metadataCache rendered !! Photo.path file) →
  Legacy.fetchMetadata get file rendered now = (now, []).
Proof. intros [m Hm]. unfold Legacy.fetchMetadata. by rewrite Hm. Qed.

Lemma fetchMetadata_stored get file rendered now data :
  Legacy.metadataCache rendered !! Photo.path file = None →
  get (Photo.path file) ≫= Legacy.parse = Some data →
  Legacy.fetchMetadata get file rendered now =
  ({| Legacy.photos := Legacy.photos now;
      Legacy.selectedIndex := Legacy.selectedIndex now;
      Legacy.metadataCache := <[Photo.path file := data]> (Legacy.metadataCache now) |},
   []).
Proof. intros Hnone Hdata. unfold Legacy.fetchMetadata. by rewrite Hnone, Hdata. Qed.

End metadata_cache.

(** X15. In the first App component an update writes the cache entry of
    the current photo only: the entry takes the rating and the label that
    are given and keeps what the old entry had for the one that is not;
    the entries of other paths, the photos and the index stay as they are,
    whatever becomes of the request; and a [fetchMetadata] called from
    then on does nothing for that photo, whatever the state by the time it
    would store, so a value the update did not give is never loaded. *)
Theorem cache_update_frame
    (post : Http.MetadataBody → Http.FetchResult)
    (rating : option Z) (label : option (option string))
    (st : Legacy.State) (cp : PhotoRecord) :
  JS.index (Legacy.photos st) (Legacy.selectedIndex st) = Some cp →
  let st' := (Legacy.updateMetadata post rating label st).1 in
  let old := Legacy.metadataCache st !! Photo.path cp in
  (∃ m, Legacy.metadataCache st' !! Photo.path cp = Some m
     ∧ Legacy.rating m =
         match rating with Some r => Some r | None => old ≫= Legacy.rating end
     ∧ Legacy.label m =
         match label with Some l => Some l | None => old ≫= Legacy.label end)
  ∧ (∀ other, other ≠ Photo.path cp →
       Legacy.metadataCache st' !! other = Legacy.metadataCache st !! other)
  ∧ Legacy.photos st' = Legacy.photos st
  ∧ Legacy.selectedIndex st' = Legacy.selectedIndex st
  ∧ (∀ get now, Legacy.fetchMetadata get cp st' now = (now, [])).
Proof.
  intros Hcp st' old. unfold st'.
  rewrite (legacy_updateMetadata_state _ _ _ _ cp Hcp).
  split_and!.
  - eexists. split; [apply lookup_insert_eq|done].
  - intros other Hother. simpl. by rewrite lookup_insert_ne.
  - done.
  - done.
  - intros get now. apply fetchMetadata_cached. simpl.
    rewrite lookup_insert_eq. by eexists.
Qed.

Lemma cache_update_frame_witness :
  Legacy.metadataCache
    (Legacy.updateMetadata (postTo Sample.env true) (Some 4) None
       Demo.legacyState).1 !! "/pics/B.jpg"%string
  = Some (Legacy.mkMeta (Some 4) None).
Proof.
  destruct (cache_update_frame (postTo Sample.env true) (Some 4) None
              Demo.legacyState Sample.B) as ((m & Hm & Hr & Hl) & _);
    [reflexivity|].
  change "/pics/B.jpg"%string with (Photo.path Sample.B). rewrite Hm.
  destruct m as [r l]. cbn [Legacy.rating Legacy.label] in Hr, Hl.
  unfold Demo.legacyState in Hl. cbn [Legacy.metadataCache] in Hl.
  rewrite lookup_empty in Hl. by rewrite Hr, Hl.
Defined.

(** X16. [fetchMetadata] looks at the cache of the render it was called
    in and stores into the cache of the time its response arrives.  It
    touches no path but the file's own and leaves the photos and the
    index; it does nothing when the render's cache had an entry for the
    file.  When that cache had none, whatever JSON the server answers
    becomes the file's entry, whether or not the cache holds one by then:
    a rating or label given with [updateMetadata] while the request was
    under way is replaced by the answer.  After a failed read (status 500)
    the file has an entry with neither rating nor label, and a render that
    sees the entry does not try the read again. *)
Theorem fetchMetadata_stores_on_arrival
    (get : string → option Listing.MetadataResponse)
    (file : PhotoRecord) (rendered now : Legacy.State) :
  let st' := (Legacy.fetchMetadata get file rendered now).1 in
  (∀ path, path ≠ Photo.path file →
     Legacy.metadataCache st' !! path = Legacy.metadataCache now !! path)
  ∧ Legacy.photos st' = Legacy.photos now
  ∧ Legacy.selectedIndex st' = Legacy.selectedIndex now
  ∧ (is_Some (Legacy.metadataCache rendered !! Photo.path file) →
       Legacy.fetchMetadata get file rendered now = (now, []))
  ∧ (Legacy.metadataCache rendered !! Photo.path file = None →
       (∀ data, get (Photo.path file) ≫= Legacy.parse = Some data →
          Legacy.metadataCache st' !! Photo.path file = Some data
          ∧ ∀ get' later, Legacy.fetchMetadata get' file st' later = (later, []))
       ∧ (get (Photo.path file) ≫= Legacy.parse = None →
            Legacy.fetchMetadata get file rendered now =
            (now, [LogError "Failed to fetch metadata"]))
       ∧ (∀ status error,
            get (Photo.path file) = Some (Listing.MetadataError status error) →
            Legacy.metadataCache st' !! Photo.path file =
            Some (Legacy.mkMeta None None))
       ∧ (∀ post rating label data,
            JS.index (Legacy.photos rendered) (Legacy.selectedIndex rendered)
              = Some file →
            now = (Legacy.updateMetadata post rating label rendered).1 →
            get (Photo.path file) ≫= Legacy.parse = Some data →
            Legacy.metadataCache now !! Photo.path file =
              Some (Legacy.merge None rating label)
            ∧ Legacy.metadataCache st' !! Photo.path file = Some data)).
Proof.
  intros st'. unfold st'.
  destruct (Legacy.metadataCache rendered !! Photo.path file) as [m0|] eqn:Hfile.
  { rewrite fetchMetadata_cached by (rewrite Hfile; by eexists).
    split_and!; done. }
  destruct (get (Photo.path file) ≫= Legacy.parse) as [data|] eqn:Hget.
  - rewrite (fetchMetadata_stored get file rendered now data Hfile Hget).
    cbn [fst Legacy.metadataCache Legacy.photos Legacy.selectedIndex].
    split_and!; try done.
    + intros path Hne. by rewrite lookup_insert_ne.
    + intros _. split_and!.
      * intros ? [= <-]. split; [apply lookup_insert_eq|].
        intros get' later. apply fetchMetadata_cached.
        cbn [Legacy.metadataCache]. rewrite lookup_insert_eq. by eexists.
      * done.
      * intros status error Hresp. rewrite Hresp in Hget. simpl in Hget.
        injection Hget as <-. apply lookup_insert_eq.
      * intros post rating label ? Hcp -> [= <-]. split; [|apply lookup_insert_eq].
        rewrite (legacy_updateMetadata_state _ _ _ _ file Hcp).
        cbn [Legacy.metadataCache]. by rewrite lookup_insert_eq, Hfile.
  - unfold Legacy.fetchMetadata. rewrite Hfile, Hget.
    split_and!; try done.
    intros _. split_and!; try done.
    intros status error Hresp. by rewrite Hresp in Hget.
Qed.

Lemma fetchMetadata_stores_on_arrival_witness :
  Demo.ratedSince =
    (Legacy.updateMetadata (postTo Sample.env true) (Some 4) None Demo.legacyState).1
  ∧ Legacy.metadataCache Demo.ratedSince !! "/pics/B.jpg"%string
    = Some (Legacy.mkMeta (Some 4) None)
  ∧ Legacy.metadataCache
      (Legacy.fetchMetadata (getFrom Sample.env true) Sample.B
         Demo.legacyState Demo.ratedSince).1 !! "/pics/B.jpg"%string
    = Some (Legacy.mkMeta (Some 0) (Some (Some ""%string))).
Proof.
  assert (Demo.ratedSince =
    (Legacy.updateMetadata (postTo Sample.env true) (Some 4) None Demo.legacyState).1)
    as Hsince.
  { reflexivity. }
  split; [exact Hsince|].
  destruct (fetchMetadata_stores_on_arrival (getFrom Sample.env true) Sample.B
              Demo.legacyState Demo.ratedSince) as (_ & _ & _ & _ & Hnone).
  destruct Hnone as (_ & _ & _ & Hrace); [reflexivity|].
  destruct (Hrace (postTo Sample.env true) (Some 4) None
              (Legacy.mkMeta (Some 0) (Some (Some ""%string))))
    as [Hnow Hlater]; [reflexivity|exact Hsince|reflexivity|].
  split; [exact Hnow|exact Hlater].
Defined.

(** * Copying the visible photos *)

Section copy_tool.
Context (env : Server.Env).

(** The handler's run for a request with files and a destination that
    exists or can be made. *)
Lemma postCopyFiles_loop (body : Http.CopyBody) files destination :
  Http.files body = Some files →
  Http.destination body = Some destination →
  destination ≠ ""%string →
  (Server.existsSync env destination = true
   ∨ ∃ u, Server.mkdir env destination = Server.Ok u) →
  Server.postCopyFiles env body =
  match Server.copyLoop env destination files 0 with
  | (copied, Server.Ok count) => Server.mkCopyRun (Http.CopiedJson count) [] copied
  | (copied, Server.Throw message) =>
      Server.mkCopyRun (Http.ErrorJson 500 message)
        [LogError "Error copying files:"] copied
  end.
Proof.
  intros Hfiles Hdest Hne Hmade.
  unfold Server.postCopyFiles. rewrite Hfiles, Hdest. simpl.
  destruct destination as [|a d]; [done|]. simpl.
  destruct Hmade as [->|[u Hu]]; [done|].
  rewrite Hu. by destruct (Server.existsSync env _).
Qed.

End copy_tool.

(** X17. Confirmed, with a target folder and a visible set that is not
    empty, [copyFilteredPhotos] asks the server to copy the paths of the
    visible photos, in their order, and nothing else of the catalog.  When
    every copy succeeds the alert reports the number of visible photos;
    when one fails the server's answer has no count and the alert still is
    the one for a finished copy, with an undefined count; only a request
    that does not arrive gives the failure alert. *)
Theorem export_copies_visible_photos (env : Server.Env)
    (targetFolder : string) (st : App.State) :
  targetFolder ≠ ""%string →
  App.photos st ≠ [] →
  (Server.existsSync env targetFolder = true
   ∨ ∃ u, Server.mkdir env targetFolder = Server.Ok u) →
  let files := Photo.path <$> App.photos st in
  let run := Server.postCopyFiles env (CopyTool.copyRequest targetFolder st) in
  let alert :=
    CopyTool.copyFilteredPhotos (CopyTool.postTo env true) true targetFolder st in
  (Forall (copySucceeds env targetFolder) files →
     alert = Some (CopyTool.Copied (Some (JS.len (App.photos st))))
     ∧ Server.copied run = copyTarget targetFolder <$> files)
  ∧ (∀ (k : nat) file message,
       files !! k = Some file →
       Forall (copySucceeds env targetFolder) (take k files) →
       Server.copyFile env file (copyTarget targetFolder file).2 = Server.Throw message →
       alert = Some (CopyTool.Copied None)
       ∧ Server.copied run = copyTarget targetFolder <$> take k files)
  ∧ CopyTool.copyFilteredPhotos (CopyTool.postTo env false) true targetFolder st
      = Some CopyTool.FailedToCopy.
Proof.
  intros Htarget%String.eqb_neq Hphotos Hmade files run alert.
  assert (JS.len (App.photos st) ≠ 0) as Hlen.
  { unfold JS.len. destruct (App.photos st); [done|]. simpl. lia. }
  assert (run =
    match Server.copyLoop env targetFolder files 0 with
    | (copied, Server.Ok count) => Server.mkCopyRun (Http.CopiedJson count) [] copied
    | (copied, Server.Throw message) =>
        Server.mkCopyRun (Http.ErrorJson 500 message)
          [LogError "Error copying files:"] copied
    end) as Hrun.
  { unfold run. apply postCopyFiles_loop; try done. by apply String.eqb_neq. }
  assert (alert =
    if Http.is_json (Server.copyResponse run)
    then Some (CopyTool.Copied (Http.count_of (Server.copyResponse run)))
    else Some CopyTool.FailedToCopy) as Halert.
  { unfold alert, CopyTool.copyFilteredPhotos. rewrite Htarget.
    by rewrite decide_False by done. }
  split_and!.
  - intros Hall. rewrite Halert, Hrun.
    rewrite (copyLoop_all env targetFolder files 0 Hall). simpl.
    split; [|done]. unfold files, JS.len. by rewrite length_fmap.
  - intros k file message Hk Hall Hthrow. rewrite Halert, Hrun.
    by rewrite (copyLoop_stops env targetFolder files 0 k file message Hk Hall Hthrow).
  - unfold CopyTool.copyFilteredPhotos. rewrite Htarget.
    by rewrite decide_False by done.
Qed.

Lemma export_copies_visible_photos_witness :
  CopyTool.copyFilteredPhotos (CopyTool.postTo Sample.env true) true "/out"
    Demo.exportState = Some (CopyTool.Copied (Some 2))
  ∧ Server.copied
      (Server.postCopyFiles Sample.env (CopyTool.copyRequest "/out" Demo.exportState)) =
    [("/pics/B.jpg", "/out/B.jpg"); ("/pics/C.jpg", "/out/C.jpg")]%string.
Proof.
  destruct (export_copies_visible_photos Sample.env "/out" Demo.exportState)
    as (Hall & _); [done|done|by left|].
  destruct Hall as [Halert Hcopied].
  - repeat constructor; by exists tt.
  - split; [exact Halert|exact Hcopied].
Defined.

(** * Frontend and backend together *)

(** X18. For a file that is not in the cache of the render yet,
    [fetchMetadata] against the server stores what GET /api/metadata
    answers, whatever the state by then: after a successful
    read a rating and a label that are never undefined (0 and the empty
    string stand for a missing tag); after a failed read an entry without
    either; for a file without a path nothing, and the failure is
    logged. *)
Theorem metadata_fetch_end_to_end (env : Server.Env) (file : PhotoRecord)
    (st now : Legacy.State) :
  Legacy.metadataCache st !! Photo.path file = None →
  let result := Legacy.fetchMetadata (getFrom env true) file st now in
  let entry := Legacy.metadataCache result.1 !! Photo.path file in
  (Photo.path file = ""%string → result = (now, [LogError "Failed to fetch metadata"]))
  ∧ (Photo.path file ≠ ""%string →
       match Server.exiftool_read env (Photo.path file) with
       | Server.Ok tags =>
           entry = Some (Legacy.mkMeta
                           (Some (JS.num_or (Server.tagRating tags) 0))
                           (Some (Some (Listing.label_or_empty (Server.tagLabel tags)))))
       | Server.Throw _ => entry = Some (Legacy.mkMeta None None)
       end
       ∧ result.2 = []).
Proof.
  intros Hnone result entry. unfold entry, result, Legacy.fetchMetadata.
  rewrite Hnone. unfold getFrom, Listing.getMetadata.
  split.
  - intros ->. done.
  - intros Hne%String.eqb_neq. simpl. rewrite Hne. simpl.
    destruct (Server.exiftool_read env (Photo.path file)); simpl;
      by rewrite lookup_insert_eq.
Qed.

Lemma metadata_fetch_end_to_end_witness :
  Legacy.metadataCache
    (Legacy.fetchMetadata (getFrom Sample.env true) Sample.A
       Demo.legacyState Demo.legacyState).1
    !! "/pics/A.jpg"%string
  = Some (Legacy.mkMeta (Some 0) (Some (Some ""%string))).
Proof.
  destruct (metadata_fetch_end_to_end Sample.env Sample.A
              Demo.legacyState Demo.legacyState)
    as [_ H]; [reflexivity|].
  destruct H as [H _]; [done|]. exact H.
Defined.

Section key_requests.
Implicit Types (key : string) (rating : option Z) (label : option (option string)).

(** The labels the keys issue are known colours, or [null]. *)
Lemma keyCommand_label columnsCount n key rating label :
  App.keyCommand columnsCount n key = App.Update rating label →
  ∀ l, label = Some l → colourOrNone l.
Proof.
  unfold App.keyCommand.
  repeat (destruct (String.eqb key _);
    [intros ?; simplify_eq; intros; simplify_eq;
     first [by left
           | right; eexists; split; [done|];
             apply (bool_decide_unpack _); by vm_compute]|]).
  done.
Qed.

Lemma keyCommand_zero columnsCount n :
  App.keyCommand columnsCount n "0" = App.Update (Some 0) (Some None).
Proof. reflexivity. Qed.

End key_requests.

(** X19. Every label a key press asks to write is a known colour or
    [null].  The key 0 asks for rating 0 and label [null]: a write the
    server issues for it sets [Rating] and [RatingPercent] to 0 and
    [Label] to null, and writes keywords without any known colour label. *)
Theorem zero_key_clears (env : Server.Env) (cp : PhotoRecord) (file : string)
    (tags : gmap string Server.TagVal) :
  Server.written
    (Server.postMetadata env (App.metadataRequest cp (Some 0) (Some None)))
    = Some (file, tags) →
  (∀ columnsCount n, App.keyCommand columnsCount n "0" = App.Update (Some 0) (Some None))
  ∧ (∀ columnsCount n key rating label l,
       App.keyCommand columnsCount n key = App.Update rating label →
       label = Some l → colourOrNone l)
  ∧ file = Photo.path cp
  ∧ tags !! "Rating"%string = Some (Server.TNum 0)
  ∧ tags !! "RatingPercent"%string = Some (Server.TNum 0)
  ∧ tags !! "Label"%string = Some Server.TNull
  ∧ ∃ keywords,
      tags !! "Keywords"%string = Some (Server.TArr keywords)
      ∧ ∀ k, k ∈ keywords → k ∉ Server.colorLabels.
Proof.
  intros Hw.
  split; [by intros|]. split; [intros; by eapply keyCommand_label|].
  revert Hw. unfold Server.postMetadata, App.metadataRequest.
  cbn [Http.file Http.rating Http.label].
  destruct (JS.truthy (Some (Photo.path cp))); [|done].
  cbn [negb from_option id].
  destruct (Server.exiftool_read env (Photo.path cp)) as [meta|]; [|done].
  destruct (Server.exiftool_write env _ _ _); [|done].
  cbn [Server.written]. intros [= <- <-].
  unfold Server.labelTags, Server.ratingTags.
  split; [done|]. split; [by simplify_map_eq|]. split; [by simplify_map_eq|].
  split; [by simplify_map_eq|].
  eexists. split; [by simplify_map_eq|].
  rewrite newKeywords_unfold. simpl. rewrite app_nil_r.
  intros k Hk. by apply list_elem_of_filter in Hk as [? _].
Qed.

Lemma zero_key_clears_witness :
  ∃ tags,
    Server.written
      (Server.postMetadata Sample.env
         (App.metadataRequest Sample.B (Some 0) (Some None)))
    = Some ("/pics/B.jpg"%string, tags)
    ∧ tags !! "Label"%string = Some Server.TNull.
Proof.
  destruct (Server.written
              (Server.postMetadata Sample.env
                 (App.metadataRequest Sample.B (Some 0) (Some None))))
    as [[file tags]|] eqn:Hw; [|by vm_compute in Hw].
  destruct (zero_key_clears Sample.env Sample.B file tags Hw)
    as (_ & _ & -> & _ & _ & Hlabel & _).
  exists tags. split; [reflexivity|exact Hlabel].
Defined.

(** X20. When the server issues the write for a rating given on a settled
    state, the file written is the current photo's, the rating written is
    the one given, and it is the rating every record with that path holds
    in the catalog after the optimistic update; there is such a record. *)
Theorem catalog_and_file_agree (env : Server.Env) (r : Z)
    (label : option (option string)) (st : App.State) (cp : PhotoRecord)
    (file : string) (tags : gmap string Server.TagVal) :
  settled st →
  App.currentPhoto st = Some cp →
  Server.written
    (Server.postMetadata env (App.metadataRequest cp (Some r) label))
    = Some (file, tags) →
  let st' := (App.updateMetadata (postTo env true) (Some r) label st).1 in
  file = Photo.path cp
  ∧ tags !! "Rating"%string = Some (Server.TNum r)
  ∧ (∃ p, p ∈ App.allPhotos st' ∧ Photo.path p = file)
  ∧ (∀ p, p ∈ App.allPhotos st' → Photo.path p = file →
       Photo.rating p = Some r ∧ ratingOf p = r).
Proof.
  intros Hset Hcp Hw st'.
  destruct (postMetadata_written env _ file tags Hw r eq_refl) as (Hrating & _).
  assert (file = Photo.path cp) as ->.
  { revert Hw. unfold Server.postMetadata, App.metadataRequest.
    cbn [Http.file Http.rating Http.label].
    destruct (JS.truthy (Some (Photo.path cp))); [|done].
    cbn [negb from_option id].
    destruct label as [l|].
    - destruct (Server.exiftool_read env _); [|done].
      destruct (Server.exiftool_write env _ _ _); [|done].
      cbn [Server.written]. by intros [= <- _].
    - destruct (Server.exiftool_write env _ _ _); [|done].
      cbn [Server.written]. by intros [= <- _]. }
  assert (App.allPhotos st' =
    App.updateList (Photo.path cp) (Some r) label (App.allPhotos st)) as Hall.
  { unfold st'. by rewrite (updateMetadata_state _ _ _ _ cp Hcp). }
  assert (cp ∈ App.allPhotos st) as Hin.
  { unfold App.currentPhoto, JS.index in Hcp. case_decide; [|done].
    apply list_elem_of_lookup_2 in Hcp. rewrite Hset in Hcp.
    by apply elem_of_applyFilters in Hcp as [? _]. }
  split; [done|]. split; [done|]. split.
  - exists (App.spread (Some r) label cp). split; [|done].
    rewrite Hall. by apply elem_of_updateList.
  - intros p. rewrite Hall. unfold App.updateList.
    intros (q & -> & _)%list_elem_of_fmap.
    case_decide as Hq; [|intros Hp; by destruct Hq].
    intros _. split; [done|]. by rewrite ratingOf_spread.
Qed.

Lemma catalog_and_file_agree_witness :
  ∃ tags,
    Server.written
      (Server.postMetadata Sample.env
         (App.metadataRequest Sample.C (Some 5) None))
    = Some ("/pics/C.jpg"%string, tags)
    ∧ tags !! "Rating"%string = Some (Server.TNum 5).
Proof.
  destruct (Server.written
              (Server.postMetadata Sample.env
                 (App.metadataRequest Sample.C (Some 5) None)))
    as [[file tags]|] eqn:Hw; [|by vm_compute in Hw].
  destruct (catalog_and_file_agree Sample.env 5 None (Sample.stateAt 2) Sample.C
              file tags) as (-> & Hrating & _); [reflexivity|reflexivity|exact Hw|].
  exists tags. split; [reflexivity|exact Hrating].
Defined.
